(** * fix_preferred_assets.py: repair of duplicated "preferred" media assets

    A shallow embedding of [fix_preferred_assets.py] (viewra) and the
    properties of its conflict-resolution pass.

    - The [media_assets] table is a list of rows in storage order.
    - The sqlite3 connection is a state (table, statements executed, lines
      printed); the script's functions are computations in a state and
      exception monad over it.
    - Python's [hash] on [str] is salted per interpreter process: it is a
      parameter [hash] of the development, and [Py.hash] gives CPython's
      own function (SipHash-1-3 keyed by the process secret). *)

From Stdlib Require Import ZArith List Bool Lia.
From Stdlib Require Import Ascii String.
From Stdlib Require Import Permutation Sorted.
Import ListNotations.

Local Open Scope string_scope.
Local Open Scope list_scope.
Local Open Scope Z_scope.

(** ** The table *)

(** Modelled from the spec: the schema of [media_assets], which the script
    only names in its SQL.  Columns are text; [plugin_id] and [created_at]
    may be NULL ([None]); [preferred] is a boolean flag; [id] is the
    unique key, which the properties that need it assume of the table as
    [NoDup (map id table)].  Text is a
    sequence of code points below 256, so that SQLite's BINARY collation
    and CPython's one-byte string representation agree with [string]. *)
Record Row : Type := mkRow {
  id          : string;
  entity_type : string;
  entity_id   : string;
  type        : string;
  path        : string;
  source      : string;
  plugin_id   : option string;
  created_at  : option string;
  preferred   : bool
}.

(** A result row of the second SELECT:
    [(id, path, source, plugin_id, created_at)]. *)
Definition Asset : Type :=
  (string * string * string * option string * option string)%type.

(** The grouping key [(entity_type, entity_id, type)]. *)
Definition Key : Type := (string * string * string)%type.

Definition row_key (r : Row) : Key := (entity_type r, entity_id r, type r).

Definition key_eqb (k1 k2 : Key) : bool :=
  let '(a1, b1, c1) := k1 in
  let '(a2, b2, c2) := k2 in
  (a1 =? a2)%string && (b1 =? b2)%string && (c1 =? c2)%string.

Definition set_preferred (b : bool) (r : Row) : Row :=
  mkRow (id r) (entity_type r) (entity_id r) (type r) (path r) (source r)
        (plugin_id r) (created_at r) b.

Definition asset_of_row (r : Row) : Asset :=
  (id r, path r, source r, plugin_id r, created_at r).

(** Every column of a row but [preferred]. *)
Definition other_columns (r : Row) :=
  (id r, entity_type r, entity_id r, type r, path r, source r, plugin_id r,
   created_at r).

(** ** Ordering *)

(** A stable insertion sort: [before x y] says that [x] may stay in front of
    [y].  Elements that compare equal keep their input order, as in Python's
    [list.sort] (also with [reverse=True]). *)
Section Sort.
Context {A : Type} (before : A -> A -> bool).

Fixpoint insert_by (x : A) (l : list A) : list A :=
  match l with
  | [] => [x]
  | y :: ys => if before x y then x :: y :: ys else y :: insert_by x ys
  end.

Definition sort_by (l : list A) : list A := fold_right insert_by [] l.
End Sort.

(** SQLite's comparison of a nullable text column: NULL sorts below every
    text value, text is compared bytewise. *)
Definition sql_leb (a b : option string) : bool :=
  match a, b with
  | None, _ => true
  | Some _, None => false
  | Some x, Some y => String.leb x y
  end.

(** ** CPython's [hash] on [str] *)

(** [hash(created_at)] is CPython's string hash: SipHash-1-3 (the default
    since 3.11) over the string's bytes, keyed by the 16 first bytes of the
    per-process secret [_Py_HashSecret].  The secret is drawn at interpreter
    start: from the OS random source by default, from a linear congruential
    generator when [PYTHONHASHSEED] is a non-zero number, all zero when it
    is [0].  64-bit words are [Z] with the wrap-around written out. *)
Module Py.

Definition w64 (x : Z) : Z := x mod 2 ^ 64.
Definition w32 (x : Z) : Z := x mod 2 ^ 32.

Definition rotl (x b : Z) : Z :=
  Z.lor (w64 (Z.shiftl x b)) (Z.shiftr x (64 - b)).

(** The four words [v0 v1 v2 v3] of the SipHash state. *)
Definition sipstate : Type := (Z * Z * Z * Z)%type.

(** [HALF_ROUND(a,b,c,d,s,t)] of [pyhash.c]. *)
Definition half_round (a b c d s t : Z) : Z * Z * Z * Z :=
  let a := w64 (a + b) in
  let c := w64 (c + d) in
  let b := Z.lxor (rotl b s) a in
  let d := Z.lxor (rotl d t) c in
  let a := rotl a 32 in
  (a, b, c, d).

(** [SINGLE_ROUND(v0,v1,v2,v3)]. *)
Definition single_round (v : sipstate) : sipstate :=
  let '(v0, v1, v2, v3) := v in
  let '(v0, v1, v2, v3) := half_round v0 v1 v2 v3 13 16 in
  let '(v2, v1, v0, v3) := half_round v2 v1 v0 v3 17 21 in
  (v0, v1, v2, v3).

(** Little-endian value of at most eight bytes. *)
Fixpoint le_bytes (bs : list Z) : Z :=
  match bs with
  | [] => 0
  | b :: bs' => b + 256 * le_bytes bs'
  end.

Definition absorb (v : sipstate) (m : Z) : sipstate :=
  let '(v0, v1, v2, v3) := v in
  let '(v0, v1, v2, v3) := single_round (v0, v1, v2, Z.lxor v3 m) in
  (Z.lxor v0 m, v1, v2, v3).

(** The [while (src_sz >= 8)] loop; returns the state and the tail of
    fewer than eight bytes. *)
Fixpoint blocks (v : sipstate) (bs : list Z) : sipstate * list Z :=
  match bs with
  | b0 :: b1 :: b2 :: b3 :: b4 :: b5 :: b6 :: b7 :: rest =>
      blocks (absorb v (le_bytes [b0; b1; b2; b3; b4; b5; b6; b7])) rest
  | _ => (v, bs)
  end.

Definition siphash13 (k0 k1 : Z) (bs : list Z) : Z :=
  let b := w64 (Z.shiftl (Z.of_nat (List.length bs)) 56) in
  let v := (Z.lxor k0 0x736f6d6570736575, Z.lxor k1 0x646f72616e646f6d,
            Z.lxor k0 0x6c7967656e657261, Z.lxor k1 0x7465646279746573) in
  let '(v, tail) := blocks v bs in
  let b := Z.lor b (le_bytes tail) in
  let '(v0, v1, v2, v3) := absorb v b in
  let v2 := Z.lxor v2 0xff in
  let '(v0, v1, v2, v3) :=
    single_round (single_round (single_round (v0, v1, v2, v3))) in
  Z.lxor (Z.lxor v0 v1) (Z.lxor v2 v3).

(** The hash secret: the two key words [k0], [k1]. *)
Definition secret : Type := (Z * Z)%type.

(** [lcg_urandom] of [bootstrap_hash.c]: the bytes of the secret under
    [PYTHONHASHSEED=x0]. *)
Fixpoint lcg_urandom (x : Z) (size : nat) : list Z :=
  match size with
  | O => []
  | S n =>
      let x := w32 (w32 (x * 214013) + 2531011) in
      Z.land (Z.shiftr x 16) 0xff :: lcg_urandom x n
  end.

Definition secret_of_seed (seed : Z) : secret :=
  if seed =? 0 then (0, 0)
  else
    let bs := lcg_urandom seed 16 in
    (le_bytes (firstn 8 bs), le_bytes (skipn 8 bs)).

Definition bytes_of_string (s : string) : list Z :=
  map (fun c => Z.of_N (N_of_ascii c)) (list_ascii_of_string s).

(** [_Py_HashBytes]: the empty string hashes to 0, the unsigned result is
    read as a signed 64-bit integer, and -1 (the error value) becomes -2. *)
Definition hash (k : secret) (s : string) : Z :=
  match s with
  | EmptyString => 0
  | _ =>
      let u := siphash13 (fst k) (snd k) (bytes_of_string s) in
      let x := if u <? 2 ^ 63 then u else u - 2 ^ 64 in
      if x =? -1 then -2 else x
  end.

End Py.

(** ** The connection, the console and the monad *)

(** The SQL statements the script sends, in the order they are executed. *)
Inductive stmt : Type :=
| SelectConflicts (ordered : bool)
| SelectPreferred (k : Key)
| UpdateUnset (k : Key)
| UpdateSet (asset_id : string)
| SelectCountPreferred
| SelectCountAll
| Commit.

(** The lines the script prints. *)
Inductive line : Type :=
| FixingDatabase (db_path : string)
| AssetsDirectory (assets_dir : string)
| FoundConflicts (n : nat)
| FixingGroup (k : Key) (count : nat)
| WarnMissing (path : string)
| BestScore (score : Z)
| SetPreferred (path source : string) (plugin : option string)
| CouldNotDetermine
| SummaryHeader
| ConflictsFound (n : nat)
| ConflictsFixed (n : nat)
| Verifying
| StillConflicts (n : nat)
| RemainingConflict (g : Key * nat)
| AllResolved
| StatisticsHeader
| TotalAssets (n : nat)
| PreferredAssets (n : nat)
| NonPreferredAssets (n : Z)
| DatabaseNotFound (db_path : string)
| AssetsDirNotFound (assets_dir : string).

Record State : Type := mkState {
  table : list Row;
  stmts : list stmt;
  out   : list line
}.

Inductive exn : Type := IndexError.

Inductive result (A : Type) : Type :=
| Ok (a : A)
| Raised (e : exn).
Arguments Ok {A} a.
Arguments Raised {A} e.

Definition M (A : Type) : Type := State -> result A * State.

Definition ret {A} (a : A) : M A := fun st => (Ok a, st).

Definition raise {A} (e : exn) : M A := fun st => (Raised e, st).

Definition bind {A B} (m : M A) (f : A -> M B) : M B :=
  fun st =>
    match m st with
    | (Ok a, st') => f a st'
    | (Raised e, st') => (Raised e, st')
    end.

Notation "x <- m ;; k" := (bind m (fun x => k))
  (at level 61, m at next level, right associativity).
Notation "m ;; k" := (bind m (fun _ => k))
  (at level 61, right associativity).

(** A [for] loop that carries the local variables it assigns. *)
Fixpoint for_each {A B} (body : B -> A -> M B) (acc : B) (l : list A) : M B :=
  match l with
  | [] => ret acc
  | x :: xs => acc' <- body acc x ;; for_each body acc' xs
  end.

Definition print (l : line) : M unit :=
  fun st => (Ok tt, mkState (table st) (stmts st) (out st ++ [l])).

(** [cursor.execute]: the statement is logged, [f] is its effect on the
    table and [q] the rows it returns. *)
Definition execute {A} (s : stmt) (f : list Row -> list Row)
    (q : list Row -> A) : M A :=
  fun st => (Ok (q (table st)),
             mkState (f (table st)) (stmts st ++ [s]) (out st)).

(** ** The queries *)

(** [entity_type = ? AND entity_id = ? AND type = ?] *)
Definition in_group (k : Key) (r : Row) : bool := key_eqb (row_key r) k.

(** [WHERE entity_type = ? AND entity_id = ? AND type = ? AND preferred = 1] *)
Definition preferred_in (k : Key) (db : list Row) : list Row :=
  filter (fun r => in_group k r && preferred r) db.

(** The groups of [GROUP BY entity_type, entity_id, type], each once, in
    the order of their first row. *)
Fixpoint distinct_keys (rows : list Row) : list Key :=
  match rows with
  | [] => []
  | r :: rs =>
      row_key r
        :: filter (fun k => negb (key_eqb k (row_key r))) (distinct_keys rs)
  end.

(** [SELECT entity_type, entity_id, type, COUNT( * ) ... WHERE preferred = 1
    GROUP BY ... HAVING COUNT( * ) > 1] *)
Definition conflict_groups (db : list Row) : list (Key * nat) :=
  filter (fun g => (1 <? snd g)%nat)
    (map (fun k => (k, List.length (preferred_in k db)))
       (distinct_keys (filter preferred db))).

(** [ORDER BY entity_type, type] *)
Definition group_before (g1 g2 : Key * nat) : bool :=
  let '(et1, _, t1, _) := g1 in
  let '(et2, _, t2, _) := g2 in
  match String.compare et1 et2 with
  | Lt => true
  | Gt => false
  | Eq => String.leb t1 t2
  end.

Definition select_conflicts (ordered : bool) : M (list (Key * nat)) :=
  execute (SelectConflicts ordered) (fun db => db)
    (fun db =>
       if ordered then sort_by group_before (conflict_groups db)
       else conflict_groups db).

(** [ORDER BY created_at DESC]: rows with equal [created_at] stay in
    storage order. *)
Definition newer_first (r1 r2 : Row) : bool :=
  sql_leb (created_at r2) (created_at r1).

Definition select_preferred (k : Key) : M (list Asset) :=
  execute (SelectPreferred k) (fun db => db)
    (fun db => map asset_of_row (sort_by newer_first (preferred_in k db))).

(** [UPDATE media_assets SET preferred = 0 WHERE entity_type = ? AND
    entity_id = ? AND type = ?] *)
Definition unset_group (k : Key) (db : list Row) : list Row :=
  map (fun r => if in_group k r then set_preferred false r else r) db.

Definition update_unset (k : Key) : M unit :=
  execute (UpdateUnset k) (unset_group k) (fun _ => tt).

(** [UPDATE media_assets SET preferred = 1 WHERE id = ?] *)
Definition set_by_id (i : string) (db : list Row) : list Row :=
  map (fun r => if (id r =? i)%string then set_preferred true r else r) db.

Definition update_set (i : string) : M unit :=
  execute (UpdateSet i) (set_by_id i) (fun _ => tt).

(** What the first UPDATE followed by the second, for row [i], does to a
    row when no row outside the group has id [i]. *)
Definition retag (k : Key) (i : string) (r : Row) : Row :=
  if in_group k r then set_preferred (id r =? i)%string r else r.

Definition count_preferred (db : list Row) : nat :=
  List.length (filter preferred db).

Definition commit : M unit := execute Commit (fun db => db) (fun _ => tt).

(** ** The script *)

(** What the script sees of the file system. *)
Record filesystem : Type := mkFs {
  db_path_exists    : bool;            (* [db_path.exists()] *)
  assets_dir_exists : bool;            (* [assets_dir.exists()] *)
  asset_exists      : string -> bool   (* [(assets_dir / path).exists()] *)
}.

Definition db_path : string := "viewra-data/viewra.db".
Definition assets_dir : string := "viewra-data/assets".

(** Python's [==] between a nullable column and a string literal. *)
Definition is_str (o : option string) (s : string) : bool :=
  match o with
  | Some x => (x =? s)%string
  | None => false
  end.

Section Script.

(** [hash] of this interpreter process, on strings. *)
Variable hash : string -> Z.
Variable fs : filesystem.

(** The score the loop body of [determine_best_asset] gives one asset. *)
Definition asset_score (asset : Asset) : Z :=
  let '(asset_id, path, source, plugin_id, created_at) := asset in
  let score := 0 in
  (* Check if file exists (highest priority) *)
  let score := if asset_exists fs path then score + 1000 else score in
  (* Source priority *)
  let score :=
    if (source =? "embedded")%string then score + 100
    else if (source =? "plugin")%string then score + 90
    else if (source =? "core")%string then score + 80
    else score + 70 in
  (* Plugin priority *)
  let score :=
    if is_str plugin_id "musicbrainz_enricher" then score + 20
    else if is_str plugin_id "core_enrichment" then score + 15
    else score + 10 in
  (* More recent assets get slightly higher priority *)
  let score :=
    match created_at with
    | Some (String _ _ as s) => score + hash s mod 10
    | _ => score   (* [None] and [''] are false *)
    end in
  score.

(** [scored_assets.sort(key=lambda x: x[0], reverse=True)] *)
Definition higher_first (x y : Z * Asset) : bool := fst y <=? fst x.

Definition determine_best_asset (assets : list Asset) : M (option Asset) :=
  match assets with
  | [] => ret None
  | _ =>
      scored_assets <-
        for_each
          (fun scored_assets asset =>
             let '(asset_id, path, source, plugin_id, created_at) := asset in
             (if asset_exists fs path then ret tt
              else print (WarnMissing path)) ;;
             ret (scored_assets ++ [(asset_score asset, asset)]))
          [] assets ;;
      let scored_assets := sort_by higher_first scored_assets in
      match scored_assets with
      | [] => raise IndexError
      | (best_score, best_asset) :: _ =>
          print (BestScore best_score) ;;
          ret (Some best_asset)
      end
  end.

(** The body of the loop over the conflicts. *)
Definition fix_group (fixed_count : nat) (conflict : Key * nat) : M nat :=
  let '(k, count) := conflict in
  print (FixingGroup k count) ;;
  preferred_assets <- select_preferred k ;;
  best_asset <- determine_best_asset preferred_assets ;;
  match best_asset with
  | Some (best_id, best_path, best_source, best_plugin_id, best_created) =>
      update_unset k ;;
      update_set best_id ;;
      print (SetPreferred best_path best_source best_plugin_id) ;;
      ret (S fixed_count)
  | None =>
      print CouldNotDetermine ;;
      ret fixed_count
  end.

Definition fix_preferred_assets : M unit :=
  print (FixingDatabase db_path) ;;
  print (AssetsDirectory assets_dir) ;;
  conflicts <- select_conflicts true ;;
  print (FoundConflicts (List.length conflicts)) ;;
  fixed_count <- for_each fix_group O conflicts ;;
  commit ;;
  print SummaryHeader ;;
  print (ConflictsFound (List.length conflicts)) ;;
  print (ConflictsFixed fixed_count).

Definition verify_fix : M unit :=
  print Verifying ;;
  remaining_conflicts <- select_conflicts false ;;
  (match remaining_conflicts with
   | [] => print AllResolved
   | _ =>
       print (StillConflicts (List.length remaining_conflicts)) ;;
       for_each (fun _ conflict => print (RemainingConflict conflict))
         tt remaining_conflicts
   end) ;;
  preferred_count <-
    execute SelectCountPreferred (fun db => db) count_preferred ;;
  total_count <-
    execute SelectCountAll (fun db => db) (@List.length Row) ;;
  print StatisticsHeader ;;
  print (TotalAssets total_count) ;;
  print (PreferredAssets preferred_count) ;;
  print (NonPreferredAssets (Z.of_nat total_count - Z.of_nat preferred_count)).

Definition main : M unit :=
  if negb (db_path_exists fs) then print (DatabaseNotFound db_path)
  else if negb (assets_dir_exists fs) then
    print (AssetsDirNotFound assets_dir)
  else
    fix_preferred_assets ;;
    verify_fix.

(** *** The same, on the table alone *)

(** The candidates of a group as the second SELECT returns them. *)
Definition candidates (k : Key) (db : list Row) : list Asset :=
  map asset_of_row (sort_by newer_first (preferred_in k db)).

Definition warnings (assets : list Asset) : list line :=
  flat_map
    (fun asset : Asset =>
       let '(_, path, _, _, _) := asset in
       if asset_exists fs path then [] else [WarnMissing path])
    assets.

Definition scored (assets : list Asset) : list (Z * Asset) :=
  map (fun a => (asset_score a, a)) assets.

(** The best score and its asset, when there is one. *)
Definition best (assets : list Asset) : option (Z * Asset) :=
  hd_error (sort_by higher_first (scored assets)).

(** One iteration, on the table alone. *)
Definition fix_table (db : list Row) (g : Key * nat) : list Row :=
  match best (candidates (fst g) db) with
  | Some (_, (best_id, _, _, _, _)) =>
      set_by_id best_id (unset_group (fst g) db)
  | None => db
  end.

(** The conflicts in the order the first SELECT returns them. *)
Definition conflicts (db : list Row) : list (Key * nat) :=
  sort_by group_before (conflict_groups db).

(** *** The score by component *)

Definition existence_points (path : string) : Z :=
  if asset_exists fs path then 1000 else 0.

Definition source_points (source : string) : Z :=
  if (source =? "embedded")%string then 100
  else if (source =? "plugin")%string then 90
  else if (source =? "core")%string then 80
  else 70.

Definition plugin_points (plugin_id : option string) : Z :=
  if is_str plugin_id "musicbrainz_enricher" then 20
  else if is_str plugin_id "core_enrichment" then 15
  else 10.

Definition recency_points (created_at : option string) : Z :=
  match created_at with
  | Some (String _ _ as s) => hash s mod 10
  | _ => 0
  end.

End Script.

Definition asset_created_at (a : Asset) : option string := snd a.

(** ** Reading the logs *)

Definition asset_path (a : Asset) : string :=
  let '(_, path, _, _, _) := a in path.

Definition asset_source (a : Asset) : string :=
  let '(_, _, source, _, _) := a in source.

Definition asset_plugin_id (a : Asset) : option string :=
  let '(_, _, _, plugin_id, _) := a in plugin_id.

(** The two UPDATE statements. *)
Definition is_update (q : stmt) : bool :=
  match q with
  | UpdateUnset _ | UpdateSet _ => true
  | _ => false
  end.

(** The groups that a list of statements demotes, in order. *)
Definition unset_keys (qs : list stmt) : list Key :=
  flat_map (fun q => match q with UpdateUnset k => [k] | _ => [] end) qs.

(** The ids that a list of statements promotes, in order. *)
Definition set_ids (qs : list stmt) : list string :=
  flat_map (fun q => match q with UpdateSet i => [i] | _ => [] end) qs.

(** The lines of the verdict of [verify_fix]. *)
Definition verdict (cg : list (Key * nat)) : list line :=
  match cg with
  | [] => [AllResolved]
  | _ => StillConflicts (List.length cg) :: map RemainingConflict cg
  end.

(** The preferred rows in excess in the reported groups: one less than
    the count of each. *)
Definition surplus (gs : list (Key * nat)) : nat :=
  list_sum (map (fun g => (snd g - 1)%nat) gs).

(** The score without its recency component: the score under a hash that
    is 0 everywhere. *)
Definition base_score (fs : filesystem) (a : Asset) : Z :=
  asset_score (fun _ => 0) fs a.

(** ** Sample data *)

Module Sample.

Definition fs_all : filesystem := mkFs true true (fun _ => true).

(** Only [b.jpg] is on disk. *)
Definition fs_b : filesystem :=
  mkFs true true (fun p => (p =? "b.jpg")%string).

Definition fs_no_db : filesystem := mkFs false true (fun _ => true).

Definition row1 : Row :=
  mkRow "1" "album" "e1" "cover" "a.jpg" "core" None
        (Some "2024-03-02 09:15:00") true.
Definition row2 : Row :=
  mkRow "2" "album" "e1" "cover" "b.jpg" "core" None
        (Some "2024-03-01 18:40:00") true.
Definition row3 : Row :=
  mkRow "3" "album" "e2" "cover" "c.jpg" "embedded" None
        (Some "2024-03-01 18:40:00") true.
Definition row4 : Row :=
  mkRow "4" "album" "e1" "cover" "d.jpg" "embedded"
        (Some "musicbrainz_enricher") None false.

Definition db : list Row := [row1; row2; row3; row4].

Definition st : State := mkState db [] [].

Definition empty : State := mkState [] [] [].

Definition k1 : Key := ("album", "e1", "cover").

(** The interpreter's [hash] under [PYTHONHASHSEED=1] and [=2]. *)
Definition hash1 : string -> Z := Py.hash (Py.secret_of_seed 1).
Definition hash2 : string -> Z := Py.hash (Py.secret_of_seed 2).

End Sample.

(** A table with two conflicting groups and a row whose file is missing. *)
Module More.

Definition r1 : Row :=
  mkRow "10" "album" "a1" "cover" "x/1.jpg" "plugin"
        (Some "core_enrichment") (Some "2024-05-01 10:00:00") true.
Definition r2 : Row :=
  mkRow "11" "album" "a1" "cover" "x/2.jpg" "embedded" None
        (Some "2024-04-01 10:00:00") true.
Definition r3 : Row :=
  mkRow "12" "artist" "b7" "photo" "y/1.jpg" "core" None None true.
Definition r4 : Row :=
  mkRow "13" "artist" "b7" "photo" "y/2.jpg" "plugin"
        (Some "musicbrainz_enricher") (Some "") true.
Definition r5 : Row :=
  mkRow "14" "artist" "b7" "photo" "y/3.jpg" "embedded" None
        (Some "2024-02-01 00:00:00") true.
Definition r6 : Row :=
  mkRow "15" "track" "t1" "cover" "z/1.jpg" "core" None
        (Some "2024-01-01 00:00:00") true.
Definition r7 : Row :=
  mkRow "16" "track" "t1" "cover" "z/2.jpg" "embedded" None
        (Some "2024-01-02 00:00:00") false.

Definition db : list Row := [r1; r2; r3; r4; r5; r6; r7].

Definition st : State := mkState db [] [].

(** Every file is on disk but [y/3.jpg]. *)
Definition fs : filesystem :=
  mkFs true true (fun p => negb (p =? "y/3.jpg")%string).

Definition hash0 : string -> Z := Py.hash (Py.secret_of_seed 0).

Definition album : Key := ("album", "a1", "cover").
Definition artist : Key := ("artist", "b7", "photo").
Definition track : Key := ("track", "t1", "cover").

End More.

(** * Properties *)

(** ** Keys and rows *)

Lemma key_eqb_eq (k1 k2 : Key) : key_eqb k1 k2 = true <-> k1 = k2.
Proof.
  destruct k1 as [[a1 b1] c1], k2 as [[a2 b2] c2]; simpl.
  rewrite !andb_true_iff, !String.eqb_eq.
  split.
  - intros [[-> ->] ->]; reflexivity.
  - intros H; inversion H; auto.
Qed.

Lemma key_eqb_refl (k : Key) : key_eqb k k = true.
Proof. apply key_eqb_eq; reflexivity. Qed.

Lemma key_eqb_neq (k1 k2 : Key) : key_eqb k1 k2 = false <-> k1 <> k2.
Proof.
  rewrite <- key_eqb_eq. destruct (key_eqb k1 k2); split; congruence.
Qed.

Lemma key_eq_dec (k1 k2 : Key) : {k1 = k2} + {k1 <> k2}.
Proof.
  destruct (key_eqb k1 k2) eqn:E.
  - left; apply key_eqb_eq; exact E.
  - right; apply key_eqb_neq; exact E.
Qed.

(** ** The stable sort *)

Section SortFacts.
Context {A : Type} (before : A -> A -> bool).

Lemma insert_by_perm (x : A) (l : list A) :
  Permutation (insert_by before x l) (x :: l).
Proof.
  induction l as [|y ys IH]; simpl.
  - apply Permutation_refl.
  - destruct (before x y).
    + apply Permutation_refl.
    + apply perm_trans with (y :: x :: ys).
      * apply perm_skip, IH.
      * apply perm_swap.
Qed.

Lemma sort_by_perm (l : list A) : Permutation (sort_by before l) l.
Proof.
  induction l as [|x xs IH]; simpl.
  - apply perm_nil.
  - apply perm_trans with (x :: sort_by before xs).
    + apply insert_by_perm.
    + apply perm_skip, IH.
Qed.

Lemma sort_by_In (x : A) (l : list A) : In x (sort_by before l) <-> In x l.
Proof.
  split; apply Permutation_in;
    [apply sort_by_perm | apply Permutation_sym, sort_by_perm].
Qed.

Lemma sort_by_nil (l : list A) : sort_by before l = [] -> l = [].
Proof.
  intros H. apply Permutation_nil.
  rewrite <- H. apply sort_by_perm.
Qed.

Hypothesis before_total :
  forall x y, before x y = true \/ before y x = true.
Hypothesis before_trans :
  forall x y z, before x y = true -> before y z = true -> before x z = true.

Lemma insert_by_sorted (x : A) (l : list A) :
  StronglySorted (fun a b => before a b = true) l ->
  StronglySorted (fun a b => before a b = true) (insert_by before x l).
Proof.
  induction 1 as [|y ys Hs IH Hy]; simpl.
  - constructor; constructor.
  - destruct (before x y) eqn:E.
    + constructor.
      * constructor; assumption.
      * constructor; [exact E|].
        rewrite Forall_forall in *. intros z Hz.
        apply before_trans with y; auto.
    + constructor; [exact IH|].
      rewrite Forall_forall in *. intros z Hz.
      apply (Permutation_in _ (insert_by_perm x ys)) in Hz.
      destruct Hz as [<-|Hz]; [|auto].
      destruct (before_total x y) as [H|H]; congruence.
Qed.

Lemma sort_by_sorted (l : list A) :
  StronglySorted (fun a b => before a b = true) (sort_by before l).
Proof.
  induction l as [|x xs IH]; simpl.
  - constructor.
  - apply insert_by_sorted, IH.
Qed.
End SortFacts.

(** The head of a descending stable sort is the first element of the input
    among those of greatest key. *)
Lemma sort_by_desc_head {A : Type} (key : A -> Z) (l : list A) (h : A)
    (t : list A) :
  sort_by (fun x y => key y <=? key x) l = h :: t ->
  exists l1 l2, l = l1 ++ h :: l2
    /\ (forall a, In a l1 -> key a < key h)
    /\ (forall a, In a l2 -> key a <= key h).
Proof.
  revert h t. induction l as [|x xs IH]; intros h t; simpl.
  - discriminate.
  - destruct (sort_by (fun x y => key y <=? key x) xs) as [|h' t'] eqn:E.
    + apply sort_by_nil in E. subst xs. simpl.
      intros H; injection H as <- <-.
      exists [], []. simpl. repeat split; intros a [].
    + destruct (IH h' t' eq_refl) as (l1 & l2 & -> & H1 & H2).
      simpl. destruct (key h' <=? key x) eqn:C.
      * intros H; injection H as <- <-.
        apply Z.leb_le in C.
        exists [], (l1 ++ h' :: l2). simpl. repeat split.
        -- intros a [].
        -- intros a Ha. apply in_app_or in Ha.
           destruct Ha as [Ha|[<-|Ha]].
           ++ specialize (H1 a Ha). lia.
           ++ exact C.
           ++ specialize (H2 a Ha). lia.
      * intros H; injection H as <- <-.
        apply Z.leb_gt in C.
        exists (x :: l1), l2. simpl. repeat split.
        -- intros a [<-|Ha]; [exact C | auto].
        -- exact H2.
Qed.

(** ** The order of [ORDER BY created_at] *)

Lemma string_leb_trans (s1 s2 s3 : string) :
  String.leb s1 s2 = true -> String.leb s2 s3 = true ->
  String.leb s1 s3 = true.
Proof.
  unfold String.leb.
  revert s2 s3. induction s1 as [|c1 s1 IH]; intros [|c2 s2] [|c3 s3];
    simpl; try congruence.
  unfold Ascii.compare.
  destruct (N.compare_spec (N_of_ascii c1) (N_of_ascii c2)) as [E12|L12|G12];
    destruct (N.compare_spec (N_of_ascii c2) (N_of_ascii c3)) as [E23|L23|G23];
    try congruence.
  - rewrite E12, E23, N.compare_refl. apply IH.
  - rewrite E12. intros _ _.
    apply N.compare_lt_iff in L23. rewrite L23. reflexivity.
  - rewrite <- E23. intros _ _.
    apply N.compare_lt_iff in L12. rewrite L12. reflexivity.
  - intros _ _.
    assert (L : (N_of_ascii c1 < N_of_ascii c3)%N) by lia.
    apply N.compare_lt_iff in L. rewrite L. reflexivity.
Qed.

Lemma sql_leb_total (a b : option string) :
  sql_leb a b = true \/ sql_leb b a = true.
Proof.
  destruct a as [x|], b as [y|]; simpl; auto.
  apply String.leb_total.
Qed.

Lemma sql_leb_trans (a b c : option string) :
  sql_leb a b = true -> sql_leb b c = true -> sql_leb a c = true.
Proof.
  destruct a as [x|], b as [y|], c as [z|]; simpl; try congruence.
  apply string_leb_trans.
Qed.

(** ** What the script computes *)

Section Run.
Variable hash : string -> Z.
Variable fs : filesystem.





Lemma best_nonempty (a : Asset) (l : list Asset) : best hash fs (a :: l) <> None.
Proof.
  unfold best.
  destruct (sort_by higher_first (scored hash fs (a :: l))) eqn:E; simpl.
  - apply sort_by_nil in E. discriminate E.
  - discriminate.
Qed.

Lemma scoring_loop (assets : list Asset) :
  forall (acc : list (Z * Asset)) (t : list Row) (q : list stmt)
         (o : list line),
    for_each
      (fun scored_assets asset =>
         let '(asset_id, path, source, plugin_id, created_at) := asset in
         (if asset_exists fs path then ret tt
          else print (WarnMissing path)) ;;
         ret (scored_assets ++ [(asset_score hash fs asset, asset)]))
      acc assets (mkState t q o)
    = (Ok (acc ++ scored hash fs assets), mkState t q (o ++ warnings fs assets)).
Proof.
  induction assets as [|a l IH]; intros acc t q o.
  - simpl. unfold ret. rewrite !app_nil_r. reflexivity.
  - destruct a as [[[[i p] s] pl] c].
    cbn [for_each]. unfold bind at 1. unfold bind at 1.
    cbn [warnings flat_map scored map].
    destruct (asset_exists fs p) eqn:E.
    + unfold ret at 1. unfold ret at 1. cbv beta iota.
      rewrite IH. cbn [app]. rewrite <- app_assoc. reflexivity.
    + unfold print at 1. cbv beta iota. unfold ret at 1.
      cbn [table stmts out]. rewrite IH.
      rewrite <- !app_assoc. reflexivity.
Qed.

Lemma determine_best_asset_eval (assets : list Asset) (t : list Row)
    (q : list stmt) (o : list line) :
  determine_best_asset hash fs assets (mkState t q o)
  = match best hash fs assets with
    | None => (Ok None, mkState t q o)
    | Some (best_score, best_asset) =>
        (Ok (Some best_asset),
         mkState t q (o ++ warnings fs assets ++ [BestScore best_score]))
    end.
Proof.
  destruct assets as [|a l].
  - reflexivity.
  - pose proof (best_nonempty a l) as Hne.
    unfold determine_best_asset. unfold bind at 1.
    rewrite scoring_loop. cbn [app].
    unfold best in *.
    destruct (sort_by higher_first (scored hash fs (a :: l))) as [|[s b] rest];
      simpl in *.
    + congruence.
    + unfold bind, print, ret. simpl. rewrite <- app_assoc. reflexivity.
Qed.

(** The effect of one iteration of the loop over the conflicts. *)
Lemma fix_group_eval (n : nat) (k : Key) (count : nat) (t : list Row)
    (q : list stmt) (o : list line) :
  fix_group hash fs n (k, count) (mkState t q o)
  = match best hash fs (candidates k t) with
    | None =>
        (Ok n,
         mkState t (q ++ [SelectPreferred k])
           (o ++ [FixingGroup k count; CouldNotDetermine]))
    | Some (best_score, (best_id, best_path, best_source, best_plugin_id,
                         _)) =>
        (Ok (S n),
         mkState (set_by_id best_id (unset_group k t))
           (q ++ [SelectPreferred k; UpdateUnset k; UpdateSet best_id])
           (o ++ [FixingGroup k count] ++ warnings fs (candidates k t)
              ++ [BestScore best_score;
                  SetPreferred best_path best_source best_plugin_id]))
    end.
Proof.
  unfold fix_group. unfold bind at 1. unfold print at 1. cbv beta iota.
  cbn [table stmts out].
  unfold bind at 1. unfold select_preferred, execute. cbv beta iota.
  cbn [table stmts out].
  unfold bind at 1. rewrite determine_best_asset_eval.
  fold (candidates k t).
  destruct (best hash fs (candidates k t)) as [[s [[[[i p] src] pl] c]]|].
  - unfold bind, update_unset, update_set, execute, print, ret. simpl.
    rewrite <- !app_assoc. reflexivity.
  - unfold bind, print, ret. simpl. rewrite <- !app_assoc. reflexivity.
Qed.


Lemma fix_group_table (n : nat) (g : Key * nat) (st : State) :
  exists n' st',
    fix_group hash fs n g st = (Ok n', st')
    /\ table st' = fix_table hash fs (table st) g.
Proof.
  destruct g as [k count], st as [t q o].
  rewrite fix_group_eval. unfold fix_table. cbn [fst table].
  destruct (best hash fs (candidates k t)) as [[s [[[[i p] src] pl] c]]|];
    eexists; eexists; split; reflexivity.
Qed.

Lemma fix_loop_table (gs : list (Key * nat)) :
  forall (n : nat) (st : State),
  exists n' st',
    for_each (fix_group hash fs) n gs st = (Ok n', st')
    /\ table st' = fold_left (fix_table hash fs) gs (table st).
Proof.
  induction gs as [|g gs IH]; intros n st.
  - exists n, st. split; reflexivity.
  - destruct (fix_group_table n g st) as (n1 & st1 & E1 & T1).
    destruct (IH n1 st1) as (n2 & st2 & E2 & T2).
    exists n2, st2. split.
    + cbn [for_each]. unfold bind. rewrite E1. exact E2.
    + rewrite T2, T1. reflexivity.
Qed.


(** [fix_preferred_assets] returns, and its table is the fold of
    [fix_table] over the conflicts. *)
Lemma fix_preferred_assets_table (st : State) :
  exists st',
    fix_preferred_assets hash fs st = (Ok tt, st')
    /\ table st' = fold_left (fix_table hash fs) (conflicts (table st)) (table st).
Proof.
  destruct st as [t q o].
  unfold fix_preferred_assets.
  unfold bind at 1. unfold print at 1. cbv beta iota. cbn [table stmts out].
  unfold bind at 1. unfold print at 1. cbv beta iota. cbn [table stmts out].
  unfold bind at 1. unfold select_conflicts, execute. cbv beta iota.
  cbn [table stmts out]. fold (conflicts t).
  unfold bind at 1. unfold print at 1. cbv beta iota. cbn [table stmts out].
  unfold bind at 1.
  match goal with
  | |- context [for_each _ ?n ?gs ?st] =>
      destruct (fix_loop_table gs n st) as (n' & st' & E & T)
  end.
  rewrite E. cbn [table] in T.
  unfold bind, commit, execute, print. simpl.
  eexists. split; [reflexivity|]. exact T.
Qed.
End Run.

(** ** The two UPDATE statements on a table with unique ids *)

Lemma in_group_retag (k k' : Key) (i : string) (r : Row) :
  in_group k' (retag k i r) = in_group k' r.
Proof. unfold retag. destruct (in_group k r); reflexivity. Qed.

Lemma id_retag (k : Key) (i : string) (r : Row) : id (retag k i r) = id r.
Proof. unfold retag. destruct (in_group k r); reflexivity. Qed.

Lemma in_group_eq (k : Key) (r : Row) :
  in_group k r = true <-> row_key r = k.
Proof. unfold in_group. apply key_eqb_eq. Qed.

Lemma NoDup_id_eq (db : list Row) (r1 r2 : Row) :
  NoDup (map id db) -> In r1 db -> In r2 db -> id r1 = id r2 -> r1 = r2.
Proof.
  induction db as [|r db IH]; simpl; intros ND H1 H2 E.
  - contradiction.
  - inversion ND as [|x l Hnotin ND']; subst.
    destruct H1 as [<-|H1], H2 as [<-|H2].
    + reflexivity.
    + exfalso. apply Hnotin. rewrite E. apply in_map, H2.
    + exfalso. apply Hnotin. rewrite <- E. apply in_map, H1.
    + apply IH; assumption.
Qed.

(** With unique ids, the two UPDATEs change the winner's group only. *)
Lemma updates_retag (k : Key) (w : Row) (db : list Row) :
  NoDup (map id db) -> In w db -> in_group k w = true ->
  set_by_id (id w) (unset_group k db) = map (retag k (id w)) db.
Proof.
  intros ND Hw Hk. unfold set_by_id, unset_group. rewrite map_map.
  apply map_ext_in. intros r Hr. unfold retag.
  destruct (in_group k r) eqn:G.
  - simpl. destruct (id r =? id w)%string; reflexivity.
  - destruct (id r =? id w)%string eqn:E; [|reflexivity].
    apply String.eqb_eq in E.
    assert (r = w) by (apply (NoDup_id_eq db); assumption).
    subst r. congruence.
Qed.

Lemma retag_other_group (k k' : Key) (i : string) (db : list Row) :
  k' <> k -> preferred_in k' (map (retag k i) db) = preferred_in k' db.
Proof.
  intros Hne. unfold preferred_in.
  induction db as [|r db IH]; simpl; [reflexivity|].
  rewrite in_group_retag, IH.
  destruct (in_group k' r) eqn:G'; simpl; [|reflexivity].
  unfold retag. destruct (in_group k r) eqn:G; [|reflexivity].
  apply in_group_eq in G, G'. congruence.
Qed.

Lemma retag_absent (k : Key) (i : string) (db : list Row) :
  ~ In i (map id db) -> preferred_in k (map (retag k i) db) = [].
Proof.
  unfold preferred_in.
  induction db as [|r db IH]; simpl; intros Hni; [reflexivity|].
  rewrite in_group_retag, IH by tauto.
  destruct (in_group k r) eqn:G; simpl; [|reflexivity].
  unfold retag. rewrite G. simpl.
  destruct (id r =? i)%string eqn:E; [|reflexivity].
  apply String.eqb_eq in E. tauto.
Qed.

Lemma retag_same_group (k : Key) (w : Row) (db : list Row) :
  NoDup (map id db) -> In w db -> in_group k w = true ->
  List.length (preferred_in k (map (retag k (id w)) db)) = 1%nat.
Proof.
  induction db as [|r db IH]; simpl; intros ND Hw Hk; [contradiction|].
  inversion ND as [|x l Hnotin ND']; subst.
  unfold preferred_in in *. simpl. rewrite in_group_retag.
  destruct Hw as [->|Hw].
  - rewrite Hk. unfold retag at 1. rewrite Hk. simpl.
    rewrite String.eqb_refl. simpl.
    fold (preferred_in k (map (retag k (id w)) db)).
    rewrite retag_absent by assumption. reflexivity.
  - assert (Hid : id r <> id w).
    { intros E. apply Hnotin. rewrite E. apply in_map, Hw. }
    apply String.eqb_neq in Hid.
    destruct (in_group k r) eqn:G; simpl.
    + unfold retag at 1. rewrite G. simpl. rewrite Hid. simpl.
      apply IH; assumption.
    + apply IH; assumption.
Qed.

Lemma unset_group_columns (k : Key) (db : list Row) :
  map other_columns (unset_group k db) = map other_columns db.
Proof.
  unfold unset_group. rewrite map_map. apply map_ext. intros r.
  destruct (in_group k r); reflexivity.
Qed.

Lemma set_by_id_columns (i : string) (db : list Row) :
  map other_columns (set_by_id i db) = map other_columns db.
Proof.
  unfold set_by_id. rewrite map_map. apply map_ext. intros r.
  destruct (id r =? i)%string; reflexivity.
Qed.

(** ** The scan *)

Lemma distinct_keys_complete (rows : list Row) (r : Row) :
  In r rows -> In (row_key r) (distinct_keys rows).
Proof.
  induction rows as [|r0 rs IH]; simpl; [tauto|].
  intros [->|H]; [left; reflexivity|].
  destruct (key_eq_dec (row_key r) (row_key r0)) as [E|N].
  - left. symmetry. exact E.
  - right. apply filter_In. split; [apply IH, H|].
    apply negb_true_iff, key_eqb_neq, N.
Qed.

Lemma conflict_groups_sound (db : list Row) (k : Key) (n : nat) :
  In (k, n) (conflict_groups db) ->
  n = List.length (preferred_in k db) /\ (1 < n)%nat.
Proof.
  unfold conflict_groups. rewrite filter_In, in_map_iff.
  intros [(k' & E & _) H]. injection E as -> <-.
  split; [reflexivity|]. apply Nat.ltb_lt. exact H.
Qed.

Lemma conflict_groups_complete (db : list Row) (k : Key) :
  (1 < List.length (preferred_in k db))%nat ->
  In (k, List.length (preferred_in k db)) (conflict_groups db).
Proof.
  intros H. unfold conflict_groups. apply filter_In. split.
  - apply in_map_iff. exists k. split; [reflexivity|].
    destruct (preferred_in k db) as [|r l] eqn:E; [simpl in H; lia|].
    assert (Hr : In r (preferred_in k db)) by (rewrite E; left; reflexivity).
    unfold preferred_in in Hr. apply filter_In in Hr.
    destruct Hr as [Hr Hb]. apply andb_true_iff in Hb. destruct Hb as [G P].
    apply in_group_eq in G. rewrite <- G.
    apply distinct_keys_complete, filter_In. split; assumption.
  - apply Nat.ltb_lt. exact H.
Qed.

Lemma conflict_groups_nil (db : list Row) :
  (forall k, (List.length (preferred_in k db) <= 1)%nat) ->
  conflict_groups db = [].
Proof.
  intros H. destruct (conflict_groups db) as [|[k n] l] eqn:E; [reflexivity|].
  assert (Hin : In (k, n) (conflict_groups db))
    by (rewrite E; left; reflexivity).
  apply conflict_groups_sound in Hin. destruct Hin as [-> Hn].
  specialize (H k). lia.
Qed.

(** ** Resolving the groups *)

Section Resolve.
Variable hash : string -> Z.
Variable fs : filesystem.

Lemma best_In (assets : list Asset) (s : Z) (a : Asset) :
  best hash fs assets = Some (s, a) ->
  In a assets /\ s = asset_score hash fs a.
Proof.
  unfold best. intros H.
  assert (Hin : In (s, a) (sort_by higher_first (scored hash fs assets))).
  { destruct (sort_by higher_first (scored hash fs assets)); simpl in H.
    - discriminate.
    - injection H as ->. left; reflexivity. }
  apply sort_by_In in Hin. unfold scored in Hin.
  apply in_map_iff in Hin. destruct Hin as (a' & E & Ha').
  injection E as <- ->. split; [exact Ha' | reflexivity].
Qed.

Lemma candidates_In (k : Key) (db : list Row) (a : Asset) :
  In a (candidates k db) ->
  exists r, In r db /\ in_group k r = true /\ preferred r = true
            /\ asset_of_row r = a.
Proof.
  unfold candidates. rewrite in_map_iff. intros (r & E & Hr).
  apply sort_by_In in Hr. unfold preferred_in in Hr.
  apply filter_In in Hr. destruct Hr as [Hr Hb].
  apply andb_true_iff in Hb. destruct Hb as [G P].
  exists r. auto.
Qed.

Lemma candidates_nil (k : Key) (db : list Row) :
  candidates k db = [] <-> preferred_in k db = [].
Proof.
  unfold candidates. split; intros H.
  - apply map_eq_nil in H. apply sort_by_nil in H. exact H.
  - rewrite H. reflexivity.
Qed.

Lemma fix_table_empty (db : list Row) (k : Key) (n : nat) :
  preferred_in k db = [] -> fix_table hash fs db (k, n) = db.
Proof.
  intros H. unfold fix_table. cbn [fst].
  apply candidates_nil in H. rewrite H. reflexivity.
Qed.

Lemma fix_table_retag (db : list Row) (k : Key) (n : nat) :
  NoDup (map id db) -> preferred_in k db <> [] ->
  exists w, In w db /\ in_group k w = true
            /\ fix_table hash fs db (k, n) = map (retag k (id w)) db.
Proof.
  intros ND Hne. unfold fix_table. cbn [fst].
  destruct (candidates k db) as [|a l] eqn:E.
  - apply candidates_nil in E. contradiction.
  - destruct (best hash fs (a :: l)) as [[s b]|] eqn:B.
    + apply best_In in B. destruct B as [Hb _]. rewrite <- E in Hb.
      apply candidates_In in Hb. destruct Hb as (w & Hw & G & _ & <-).
      exists w. repeat split; [exact Hw | exact G |].
      unfold asset_of_row. apply updates_retag; assumption.
    + exfalso. revert B. apply best_nonempty.
Qed.

Lemma fix_table_ids (db : list Row) (g : Key * nat) :
  map id (fix_table hash fs db g) = map id db.
Proof.
  unfold fix_table.
  destruct (best hash fs (candidates (fst g) db))
    as [[s [[[[i p] src] pl] c]]|]; [|reflexivity].
  unfold set_by_id, unset_group. rewrite !map_map.
  apply map_ext. intros r.
  destruct (in_group (fst g) r); simpl;
    destruct (id r =? i)%string; reflexivity.
Qed.

Lemma fix_table_columns (db : list Row) (g : Key * nat) :
  map other_columns (fix_table hash fs db g) = map other_columns db.
Proof.
  unfold fix_table.
  destruct (best hash fs (candidates (fst g) db))
    as [[s [[[[i p] src] pl] c]]|]; [|reflexivity].
  rewrite set_by_id_columns. apply unset_group_columns.
Qed.

Lemma fix_table_other (db : list Row) (g : Key * nat) (k : Key) :
  NoDup (map id db) -> k <> fst g ->
  preferred_in k (fix_table hash fs db g) = preferred_in k db.
Proof.
  intros ND Hne. destruct g as [k0 n]. cbn [fst] in Hne.
  destruct (preferred_in k0 db) as [|r l] eqn:E.
  - rewrite fix_table_empty by exact E. reflexivity.
  - destruct (fix_table_retag db k0 n ND) as (w & _ & _ & ->).
    + rewrite E. discriminate.
    + apply retag_other_group. exact Hne.
Qed.

Lemma fix_table_same (db : list Row) (k : Key) (n : nat) :
  NoDup (map id db) -> preferred_in k db <> [] ->
  List.length (preferred_in k (fix_table hash fs db (k, n))) = 1%nat.
Proof.
  intros ND Hne.
  destruct (fix_table_retag db k n ND Hne) as (w & Hw & G & ->).
  apply retag_same_group; assumption.
Qed.

Lemma fix_all_ids (gs : list (Key * nat)) :
  forall db, map id (fold_left (fix_table hash fs) gs db) = map id db.
Proof.
  induction gs as [|g gs IH]; intros db; simpl; [reflexivity|].
  rewrite IH. apply fix_table_ids.
Qed.

Lemma fix_all_columns (gs : list (Key * nat)) :
  forall db,
    map other_columns (fold_left (fix_table hash fs) gs db)
    = map other_columns db.
Proof.
  induction gs as [|g gs IH]; intros db; simpl; [reflexivity|].
  rewrite IH. apply fix_table_columns.
Qed.

(** A group that is not in the list is left as it was. *)
Lemma fix_all_other (gs : list (Key * nat)) (k : Key) :
  forall db,
    NoDup (map id db) -> ~ In k (map fst gs) ->
    preferred_in k (fold_left (fix_table hash fs) gs db)
    = preferred_in k db.
Proof.
  induction gs as [|g gs IH]; intros db ND Hni; simpl; [reflexivity|].
  simpl in Hni. rewrite IH.
  - apply fix_table_other; [exact ND|]. intros E. apply Hni. left.
    symmetry. exact E.
  - rewrite fix_table_ids. exact ND.
  - tauto.
Qed.

(** A group of the list that has a preferred row ends with exactly one. *)
Lemma fix_all_same (gs : list (Key * nat)) :
  forall db,
    NoDup (map id db) ->
    (forall k, In k (map fst gs) -> preferred_in k db <> []) ->
    forall k, In k (map fst gs) ->
      List.length (preferred_in k (fold_left (fix_table hash fs) gs db))
      = 1%nat.
Proof.
  induction gs as [|[k0 n] gs IH]; intros db ND Hne k Hk; simpl in *.
  - contradiction.
  - assert (ND' : NoDup (map id (fix_table hash fs db (k0, n))))
      by (rewrite fix_table_ids; exact ND).
    assert (H0 : List.length
                   (preferred_in k0 (fix_table hash fs db (k0, n))) = 1%nat)
      by (apply fix_table_same; auto).
    destruct (in_dec key_eq_dec k (map fst gs)) as [Hin|Hni].
    + apply IH; [exact ND' | | exact Hin].
      intros k' Hk'. destruct (key_eq_dec k' k0) as [->|N].
      * intros E. rewrite E in H0. discriminate.
      * rewrite fix_table_other by (cbn [fst]; assumption). auto.
    + destruct Hk as [<-|Hk]; [|contradiction].
      rewrite fix_all_other by assumption. exact H0.
Qed.

(** After the loop over the conflicts no group has two preferred rows. *)
Lemma fix_all_resolved (db : list Row) (k : Key) :
  NoDup (map id db) ->
  (List.length
     (preferred_in k (fold_left (fix_table hash fs) (conflicts db) db))
   <= 1)%nat.
Proof.
  intros ND.
  destruct (in_dec key_eq_dec k (map fst (conflicts db))) as [Hin|Hni].
  - rewrite fix_all_same; auto.
    intros k' Hk'. apply in_map_iff in Hk'.
    destruct Hk' as ([k2 n] & <- & Hg). unfold conflicts in Hg.
    apply sort_by_In, conflict_groups_sound in Hg. cbn [fst].
    destruct Hg as [-> Hn]. intros E. rewrite E in Hn. simpl in Hn. lia.
  - rewrite fix_all_other by assumption.
    destruct (Nat.le_gt_cases (List.length (preferred_in k db)) 1)
      as [L|G]; [exact L|].
    exfalso. apply Hni. apply in_map_iff.
    exists (k, List.length (preferred_in k db)). split; [reflexivity|].
    unfold conflicts. apply sort_by_In, conflict_groups_complete, G.
Qed.
End Resolve.

(** ** Scores *)

Lemma recency_points_range (hash : string -> Z) (c : option string) :
  0 <= recency_points hash c <= 9.
Proof.
  destruct c as [[|ch s]|]; simpl; try lia.
  pose proof (Z.mod_pos_bound (hash (String ch s)) 10). lia.
Qed.

Lemma source_points_range (s : string) : 70 <= source_points s <= 100.
Proof.
  unfold source_points.
  destruct (s =? "embedded")%string; [lia|].
  destruct (s =? "plugin")%string; [lia|].
  destruct (s =? "core")%string; lia.
Qed.

Lemma plugin_points_range (pl : option string) : 10 <= plugin_points pl <= 20.
Proof.
  unfold plugin_points.
  destruct (is_str pl "musicbrainz_enricher"); [lia|].
  destruct (is_str pl "core_enrichment"); lia.
Qed.

(** The score of the loop body is the sum of its four components. *)
Lemma asset_score_components (hash : string -> Z) (fs : filesystem)
    (i p s : string) (pl c : option string) :
  asset_score hash fs (i, p, s, pl, c)
  = existence_points fs p + source_points s + plugin_points pl
    + recency_points hash c.
Proof.
  unfold asset_score, existence_points, source_points, plugin_points,
    recency_points.
  destruct (asset_exists fs p);
    destruct (s =? "embedded")%string;
    destruct (s =? "plugin")%string;
    destruct (s =? "core")%string;
    destruct (is_str pl "musicbrainz_enricher");
    destruct (is_str pl "core_enrichment");
    destruct c as [[|ch c']|]; lia.
Qed.

(** C2. Existence dominance: of two candidates, the one whose file is on
    disk scores strictly higher than the one whose file is missing,
    whatever their sources, plugin ids and creation times. *)
Theorem C2_existence_dominance (hash : string -> Z) (fs : filesystem)
    (i1 p1 s1 : string) (pl1 c1 : option string)
    (i2 p2 s2 : string) (pl2 c2 : option string) :
  asset_exists fs p1 = true ->
  asset_exists fs p2 = false ->
  asset_score hash fs (i2, p2, s2, pl2, c2)
  < asset_score hash fs (i1, p1, s1, pl1, c1).
Proof.
  intros E1 E2. rewrite !asset_score_components.
  unfold existence_points. rewrite E1, E2.
  pose proof (source_points_range s1). pose proof (source_points_range s2).
  pose proof (plugin_points_range pl1). pose proof (plugin_points_range pl2).
  pose proof (recency_points_range hash c1).
  pose proof (recency_points_range hash c2).
  lia.
Qed.

(** The scenario of the specification: a core row on disk (1090 plus its
    recency points) beats an embedded musicbrainz row that is missing. *)
Lemma C2_existence_dominance_witness :
  asset_exists Sample.fs_b "b.jpg" = true
  /\ asset_exists Sample.fs_b "z.jpg" = false
  /\ asset_score Sample.hash1 Sample.fs_b
       ("9", "z.jpg", "embedded", Some "musicbrainz_enricher",
        Some "2024-03-02 09:15:00")
     < asset_score Sample.hash1 Sample.fs_b
         ("2", "b.jpg", "core", None, Some "2024-03-01 18:40:00").
Proof.
  split; [reflexivity|]. split; [reflexivity|].
  apply C2_existence_dominance; reflexivity.
Defined.

(** With both files on disk and equal plugin points, the source decides. *)
Lemma source_decides (hash : string -> Z) (fs : filesystem)
    (i1 p1 s1 : string) (pl1 c1 : option string)
    (i2 p2 s2 : string) (pl2 c2 : option string) :
  asset_exists fs p1 = true ->
  asset_exists fs p2 = true ->
  plugin_points pl1 = plugin_points pl2 ->
  source_points s2 < source_points s1 ->
  asset_score hash fs (i2, p2, s2, pl2, c2)
  < asset_score hash fs (i1, p1, s1, pl1, c1).
Proof.
  intros E1 E2 Hpl Hs. rewrite !asset_score_components.
  unfold existence_points. rewrite E1, E2, Hpl.
  pose proof (recency_points_range hash c1).
  pose proof (recency_points_range hash c2).
  assert (Hgap : source_points s2 + 10 <= source_points s1).
  { revert Hs. unfold source_points.
    destruct (s1 =? "embedded")%string, (s1 =? "plugin")%string,
      (s1 =? "core")%string, (s2 =? "embedded")%string,
      (s2 =? "plugin")%string, (s2 =? "core")%string; lia. }
  lia.
Qed.

(** C5. Source ordering: between two candidates whose files exist and whose
    plugin points are equal, "embedded" beats "plugin", "core" and every
    other source, "plugin" beats "core" and every other source, and "core"
    beats every other source, whatever recency points the hash gives each
    of the two. *)
Theorem C5_source_ordering (hash : string -> Z) (fs : filesystem)
    (i1 p1 : string) (pl1 c1 : option string)
    (i2 p2 : string) (pl2 c2 : option string) (other : string) :
  asset_exists fs p1 = true ->
  asset_exists fs p2 = true ->
  plugin_points pl1 = plugin_points pl2 ->
  other <> "embedded" -> other <> "plugin" -> other <> "core" ->
  let score1 s := asset_score hash fs (i1, p1, s, pl1, c1) in
  let score2 s := asset_score hash fs (i2, p2, s, pl2, c2) in
  score2 "plugin" < score1 "embedded"
  /\ score2 "core" < score1 "embedded"
  /\ score2 other < score1 "embedded"
  /\ score2 "core" < score1 "plugin"
  /\ score2 other < score1 "plugin"
  /\ score2 other < score1 "core".
Proof.
  intros E1 E2 Hpl N1 N2 N3 score1 score2. subst score1 score2.
  assert (Ho : source_points other = 70).
  { unfold source_points.
    apply String.eqb_neq in N1, N2, N3. rewrite N1, N2, N3. reflexivity. }
  repeat split; apply source_decides; try assumption;
    rewrite ?Ho; reflexivity.
Qed.

Lemma C5_source_ordering_witness :
  let score1 s :=
    asset_score Sample.hash1 Sample.fs_all
      ("1", "a.jpg", s, None, Some "2024-03-01 18:40:00") in
  let score2 s :=
    asset_score Sample.hash1 Sample.fs_all
      ("2", "b.jpg", s, None, Some "2024-03-02 09:15:00") in
  score2 "plugin" < score1 "embedded"
  /\ score2 "core" < score1 "embedded"
  /\ score2 "manual" < score1 "embedded"
  /\ score2 "core" < score1 "plugin"
  /\ score2 "manual" < score1 "plugin"
  /\ score2 "manual" < score1 "core".
Proof.
  apply (C5_source_ordering Sample.hash1 Sample.fs_all
           "1" "a.jpg" None (Some "2024-03-01 18:40:00")
           "2" "b.jpg" None (Some "2024-03-02 09:15:00") "manual");
    solve [reflexivity | intros H; discriminate H].
Defined.

(** C9. The recency component of a score, the amount by which [created_at]
    raises it, is [hash(created_at) % 10] and lies in [0, 9] for a
    non-empty string, and is 0 for a missing or empty one; every score lies
    in [80, 1129]. *)
Theorem C9_score_bounds (hash : string -> Z) (fs : filesystem)
    (i p s : string) (pl c : option string) :
  asset_score hash fs (i, p, s, pl, c) - asset_score hash fs (i, p, s, pl, None)
    = recency_points hash c
  /\ 0 <= recency_points hash c <= 9
  /\ recency_points hash None = 0
  /\ recency_points hash (Some "") = 0
  /\ 80 <= asset_score hash fs (i, p, s, pl, c) <= 1129.
Proof.
  rewrite !asset_score_components.
  pose proof (recency_points_range hash c).
  pose proof (source_points_range s).
  pose proof (plugin_points_range pl).
  assert (0 <= existence_points fs p <= 1000)
    by (unfold existence_points; destruct (asset_exists fs p); lia).
  change (recency_points hash None) with 0.
  change (recency_points hash (Some "")) with 0.
  repeat split; lia.
Qed.

(** C3. The winner is not a function of the candidates and the files alone:
    on the same two candidates, both on disk, the interpreter started with
    hash seed 1 keeps row 1 (scores 1099 and 1094) and the one started with
    hash seed 2 keeps row 2 (scores 1090 and 1094). *)
Theorem C3_winner_depends_on_hash_seed :
  candidates Sample.k1 Sample.db
    = [asset_of_row Sample.row1; asset_of_row Sample.row2]
  /\ fst (determine_best_asset Sample.hash1 Sample.fs_all
            (candidates Sample.k1 Sample.db) Sample.st)
     = Ok (Some (asset_of_row Sample.row1))
  /\ fst (determine_best_asset Sample.hash2 Sample.fs_all
            (candidates Sample.k1 Sample.db) Sample.st)
     = Ok (Some (asset_of_row Sample.row2))
  /\ asset_of_row Sample.row1 <> asset_of_row Sample.row2.
Proof.
  split; [vm_compute; reflexivity|].
  split; [vm_compute; reflexivity|].
  split; [vm_compute; reflexivity|].
  intros H; discriminate H.
Qed.

(** ** The run *)

Lemma fix_preferred_assets_no_conflict (hash : string -> Z) (fs : filesystem)
    (st : State) :
  conflict_groups (table st) = [] ->
  fix_preferred_assets hash fs st
  = (Ok tt,
     mkState (table st) (stmts st ++ [SelectConflicts true; Commit])
       (out st ++ [FixingDatabase db_path; AssetsDirectory assets_dir;
                   FoundConflicts 0; SummaryHeader; ConflictsFound 0;
                   ConflictsFixed 0])).
Proof.
  destruct st as [t q o]. cbn [table stmts out]. intros H.
  unfold fix_preferred_assets, bind, print, select_conflicts, execute, commit.
  cbn [table stmts out]. rewrite H. simpl.
  rewrite <- !app_assoc. reflexivity.
Qed.

Lemma print_loop (l : list (Key * nat)) :
  forall (t : list Row) (q : list stmt) (o : list line),
    for_each (fun _ conflict => print (RemainingConflict conflict)) tt l
      (mkState t q o)
    = (Ok tt, mkState t q (o ++ map RemainingConflict l)).
Proof.
  induction l as [|g l IH]; intros t q o; simpl.
  - unfold ret. rewrite app_nil_r. reflexivity.
  - unfold bind, print. cbn [table stmts out]. rewrite IH.
    rewrite <- app_assoc. reflexivity.
Qed.

(** [verify_fix] returns, reads three times and leaves the table alone. *)
Lemma verify_fix_eval (st : State) :
  exists o,
    verify_fix st
    = (Ok tt,
       mkState (table st)
         (stmts st
            ++ [SelectConflicts false; SelectCountPreferred; SelectCountAll])
         o).
Proof.
  destruct st as [t q o]. cbn [table stmts].
  unfold verify_fix.
  unfold bind at 1. unfold print at 1. cbv beta iota. cbn [table stmts out].
  unfold bind at 1. unfold select_conflicts, execute at 1. cbv beta iota.
  cbn [table stmts out].
  unfold bind at 1.
  destruct (conflict_groups t) as [|g l].
  - unfold bind, print, execute. simpl. rewrite <- !app_assoc.
    eexists. reflexivity.
  - unfold bind at 1. unfold print at 1. cbv beta iota.
    cbn [table stmts out]. rewrite print_loop.
    unfold bind, print, execute. simpl. rewrite <- !app_assoc.
    eexists. reflexivity.
Qed.

(** C1. Invariant restoration: on a table whose ids are unique, the fix
    returns, and every group that the scan reported before it has exactly
    one preferred row after it. *)
Theorem C1_invariant_restoration (hash : string -> Z) (fs : filesystem)
    (st : State) :
  NoDup (map id (table st)) ->
  exists st',
    fix_preferred_assets hash fs st = (Ok tt, st')
    /\ forall k n,
         In (k, n) (conflict_groups (table st)) ->
         List.length (preferred_in k (table st')) = 1%nat.
Proof.
  intros ND.
  destruct (fix_preferred_assets_table hash fs st) as (st' & E & T).
  exists st'. split; [exact E|].
  intros k n Hin. rewrite T.
  assert (Hsound : forall k', In k' (map fst (conflicts (table st))) ->
                              preferred_in k' (table st) <> []).
  { intros k' Hk'. apply in_map_iff in Hk'.
    destruct Hk' as ([k2 n2] & <- & Hg). unfold conflicts in Hg.
    apply sort_by_In, conflict_groups_sound in Hg. cbn [fst].
    destruct Hg as [-> Hn]. intros E0. rewrite E0 in Hn. simpl in Hn. lia. }
  apply fix_all_same; [exact ND | exact Hsound |].
  apply in_map_iff. exists (k, n). split; [reflexivity|].
  unfold conflicts. apply sort_by_In. exact Hin.
Qed.

Lemma sample_ids_unique : NoDup (map id Sample.db).
Proof.
  simpl. repeat constructor; simpl; intuition discriminate.
Defined.

Lemma C1_invariant_restoration_witness :
  conflict_groups (table Sample.st) = [(Sample.k1, 2%nat)]
  /\ exists st',
       fix_preferred_assets Sample.hash1 Sample.fs_all Sample.st = (Ok tt, st')
       /\ forall k n,
            In (k, n) (conflict_groups (table Sample.st)) ->
            List.length (preferred_in k (table st')) = 1%nat.
Proof.
  split; [reflexivity|].
  apply C1_invariant_restoration. exact sample_ids_unique.
Defined.

(** C4. Idempotence: on a table whose ids are unique, a second run of the
    fix, in any interpreter process and whatever the files then are, finds
    no conflict, sends no UPDATE and leaves the table of the first run. *)
Theorem C4_idempotence (hash hash' : string -> Z) (fs fs' : filesystem)
    (st : State) :
  NoDup (map id (table st)) ->
  exists st1,
    fix_preferred_assets hash fs st = (Ok tt, st1)
    /\ conflict_groups (table st1) = []
    /\ fix_preferred_assets hash' fs' st1
       = (Ok tt,
          mkState (table st1) (stmts st1 ++ [SelectConflicts true; Commit])
            (out st1 ++ [FixingDatabase db_path; AssetsDirectory assets_dir;
                         FoundConflicts 0; SummaryHeader; ConflictsFound 0;
                         ConflictsFixed 0])).
Proof.
  intros ND.
  destruct (fix_preferred_assets_table hash fs st) as (st1 & E & T).
  assert (H : conflict_groups (table st1) = []).
  { apply conflict_groups_nil. intros k. rewrite T.
    apply fix_all_resolved. exact ND. }
  exists st1. split; [exact E|]. split; [exact H|].
  apply fix_preferred_assets_no_conflict. exact H.
Qed.

Lemma C4_idempotence_witness :
  exists st1,
    fix_preferred_assets Sample.hash1 Sample.fs_all Sample.st = (Ok tt, st1)
    /\ conflict_groups (table st1) = []
    /\ fix_preferred_assets Sample.hash2 Sample.fs_b st1
       = (Ok tt,
          mkState (table st1) (stmts st1 ++ [SelectConflicts true; Commit])
            (out st1 ++ [FixingDatabase db_path; AssetsDirectory assets_dir;
                         FoundConflicts 0; SummaryHeader; ConflictsFound 0;
                         ConflictsFixed 0])).
Proof.
  apply C4_idempotence. simpl. repeat constructor; simpl; intuition discriminate.
Defined.

(** C6. Frame: the fix, and the whole run of [main], keep the rows of the
    table, in number, order and every column but [preferred]; [verify_fix]
    returns with the table untouched after three SELECTs and no UPDATE. *)
Theorem C6_only_preferred_changes (hash : string -> Z) (fs : filesystem)
    (st : State) :
  (exists st1,
     fix_preferred_assets hash fs st = (Ok tt, st1)
     /\ map other_columns (table st1) = map other_columns (table st))
  /\ (exists o,
        verify_fix st
        = (Ok tt,
           mkState (table st)
             (stmts st ++ [SelectConflicts false; SelectCountPreferred;
                           SelectCountAll])
             o))
  /\ (exists st2,
        main hash fs st = (Ok tt, st2)
        /\ map other_columns (table st2) = map other_columns (table st)).
Proof.
  destruct (fix_preferred_assets_table hash fs st) as (st1 & E & T).
  assert (C : map other_columns (table st1) = map other_columns (table st))
    by (rewrite T; apply fix_all_columns).
  split; [exists st1; split; assumption|].
  split; [apply verify_fix_eval|].
  unfold main.
  destruct (db_path_exists fs); simpl.
  - destruct (assets_dir_exists fs); simpl.
    + unfold bind. rewrite E.
      destruct (verify_fix_eval st1) as (o & ->).
      eexists. split; [reflexivity|]. exact C.
    + eexists. split; reflexivity.
  - eexists. split; reflexivity.
Qed.

(** C7. Empty candidate set: when the second SELECT returns no row for a
    group, [determine_best_asset] returns [None] without printing, and the
    iteration returns with the count of fixes as it was, no UPDATE sent,
    the table unchanged and the line "Could not determine best asset"
    printed. *)
Theorem C7_empty_candidates (hash : string -> Z) (fs : filesystem)
    (fixed_count : nat) (k : Key) (count : nat) (st : State) :
  fst (select_preferred k st) = Ok [] ->
  determine_best_asset hash fs [] st = (Ok None, st)
  /\ fix_group hash fs fixed_count (k, count) st
     = (Ok fixed_count,
        mkState (table st) (stmts st ++ [SelectPreferred k])
          (out st ++ [FixingGroup k count; CouldNotDetermine])).
Proof.
  intros H. split; [reflexivity|].
  destruct st as [t q o]. rewrite fix_group_eval. cbn [table stmts out].
  unfold select_preferred, execute in H. cbn [fst table] in H.
  injection H as H. fold (candidates k t) in H. rewrite H. reflexivity.
Qed.

Lemma C7_empty_candidates_witness :
  fst (select_preferred Sample.k1 Sample.empty) = Ok []
  /\ determine_best_asset Sample.hash1 Sample.fs_all [] Sample.empty
     = (Ok None, Sample.empty)
  /\ fix_group Sample.hash1 Sample.fs_all 0 (Sample.k1, 2%nat) Sample.empty
     = (Ok 0%nat,
        mkState [] [SelectPreferred Sample.k1]
          [FixingGroup Sample.k1 2; CouldNotDetermine]).
Proof.
  split; [reflexivity|].
  apply (C7_empty_candidates Sample.hash1 Sample.fs_all 0 Sample.k1 2
           Sample.empty).
  reflexivity.
Defined.

(** C8. Missing prerequisite: when the database file or the assets
    directory is absent, [main] returns after printing which one, the
    database first; no statement reaches the database and the table is
    untouched. *)
Theorem C8_missing_prerequisite (hash : string -> Z) (fs : filesystem)
    (st : State) :
  db_path_exists fs = false \/ assets_dir_exists fs = false ->
  main hash fs st
  = (Ok tt,
     mkState (table st) (stmts st)
       (out st ++ [if db_path_exists fs then AssetsDirNotFound assets_dir
                   else DatabaseNotFound db_path])).
Proof.
  intros H. unfold main.
  destruct (db_path_exists fs); simpl.
  - destruct H as [H|H]; [discriminate H|]. rewrite H. reflexivity.
  - reflexivity.
Qed.

Lemma C8_missing_prerequisite_witness :
  main Sample.hash1 Sample.fs_no_db Sample.st
  = (Ok tt, mkState Sample.db [] [DatabaseNotFound db_path]).
Proof.
  apply (C8_missing_prerequisite Sample.hash1 Sample.fs_no_db Sample.st).
  left. reflexivity.
Defined.

(** ** Ties *)

Lemma StronglySorted_map {A B : Type} (f : A -> B) (R : B -> B -> Prop)
    (l : list A) :
  StronglySorted (fun x y => R (f x) (f y)) l -> StronglySorted R (map f l).
Proof.
  induction 1 as [|x l Hs IH Hx]; simpl; constructor.
  - exact IH.
  - rewrite Forall_forall in *. intros y Hy.
    apply in_map_iff in Hy. destruct Hy as (z & <- & Hz). auto.
Qed.

Lemma StronglySorted_after {A : Type} (R : A -> A -> Prop) (l1 l2 : list A)
    (x : A) :
  StronglySorted R (l1 ++ x :: l2) -> Forall (R x) l2.
Proof.
  induction l1 as [|y l1 IH]; simpl; intros H; inversion H; subst; auto.
Qed.

(** The candidates come newest first. *)
Lemma candidates_sorted (k : Key) (db : list Row) :
  StronglySorted
    (fun a b => sql_leb (asset_created_at b) (asset_created_at a) = true)
    (candidates k db).
Proof.
  unfold candidates. apply StronglySorted_map.
  apply (sort_by_sorted newer_first).
  - intros x y. unfold newer_first. apply sql_leb_total.
  - intros x y z. unfold newer_first. intros H1 H2.
    apply sql_leb_trans with (created_at y); assumption.
Qed.

(** The winner is the first of the candidates of greatest score. *)
Lemma best_first_max (hash : string -> Z) (fs : filesystem)
    (assets : list Asset) (s : Z) (w : Asset) :
  best hash fs assets = Some (s, w) ->
  exists l1 l2, assets = l1 ++ w :: l2
    /\ (forall a, In a l1 -> asset_score hash fs a < asset_score hash fs w)
    /\ (forall a, In a l2 -> asset_score hash fs a <= asset_score hash fs w).
Proof.
  unfold best. intros H.
  destruct (sort_by higher_first (scored hash fs assets)) as [|h t] eqn:E;
    simpl in H; [discriminate|]. injection H as ->.
  apply (sort_by_desc_head fst) in E.
  destruct E as (l1' & l2' & E & H1 & H2).
  unfold scored in E. apply map_eq_app in E.
  destruct E as (l1 & r & -> & <- & E).
  apply map_eq_cons in E. destruct E as (a & l2 & -> & E & <-).
  injection E as <- ->.
  exists l1, l2. split; [reflexivity|]. split.
  - intros a Ha. apply (H1 (asset_score hash fs a, a)).
    apply in_map_iff. exists a. auto.
  - intros a Ha. apply (H2 (asset_score hash fs a, a)).
    apply in_map_iff. exists a. auto.
Qed.

(** C10. Ties: the asset that [determine_best_asset] returns is the first
    of its input among those of greatest score; when the input is what the
    second SELECT returned, no candidate of equal score has a greater
    [created_at] than the winner. *)
Theorem C10_first_of_the_best_wins (hash : string -> Z) (fs : filesystem)
    (assets : list Asset) (st st' : State) (w : Asset) :
  determine_best_asset hash fs assets st = (Ok (Some w), st') ->
  (exists l1 l2, assets = l1 ++ w :: l2
     /\ (forall a, In a l1 -> asset_score hash fs a < asset_score hash fs w)
     /\ (forall a, In a l2 -> asset_score hash fs a <= asset_score hash fs w))
  /\ forall k st0,
       fst (select_preferred k st0) = Ok assets ->
       forall a, In a assets ->
         asset_score hash fs a = asset_score hash fs w ->
         sql_leb (asset_created_at a) (asset_created_at w) = true.
Proof.
  intros H. destruct st as [t q o].
  rewrite determine_best_asset_eval in H.
  destruct (best hash fs assets) as [[s b]|] eqn:B; [|discriminate].
  injection H as -> _.
  destruct (best_first_max hash fs assets s w B) as (l1 & l2 & E & H1 & H2).
  split; [exists l1, l2; auto|].
  intros k st0 Hsel a Ha Hs.
  unfold select_preferred, execute in Hsel. cbn [fst] in Hsel.
  injection Hsel as Hsel. fold (candidates k (table st0)) in Hsel.
  pose proof (candidates_sorted k (table st0)) as S.
  rewrite Hsel, E in S. apply StronglySorted_after in S.
  rewrite E in Ha. apply in_app_or in Ha. destruct Ha as [Ha|[<-|Ha]].
  - specialize (H1 a Ha). lia.
  - destruct (sql_leb_total (asset_created_at w) (asset_created_at w)); auto.
  - rewrite Forall_forall in S. apply S, Ha.
Qed.

Lemma C10_first_of_the_best_wins_witness :
  determine_best_asset (fun _ => 0) Sample.fs_all
    (candidates Sample.k1 Sample.db) Sample.st
  = (Ok (Some (asset_of_row Sample.row1)),
     mkState Sample.db [] [BestScore 1090])
  /\ asset_score (fun _ => 0) Sample.fs_all (asset_of_row Sample.row2)
     = asset_score (fun _ => 0) Sample.fs_all (asset_of_row Sample.row1)
  /\ sql_leb (asset_created_at (asset_of_row Sample.row2))
       (asset_created_at (asset_of_row Sample.row1)) = true.
Proof.
  split; [reflexivity|]. split; [reflexivity|].
  refine (proj2 (C10_first_of_the_best_wins (fun _ => 0) Sample.fs_all
                   (candidates Sample.k1 Sample.db) Sample.st
                   (mkState Sample.db [] [BestScore 1090])
                   (asset_of_row Sample.row1) eq_refl)
            Sample.k1 Sample.st eq_refl (asset_of_row Sample.row2) _ eq_refl).
  right. left. reflexivity.
Defined.

(** * Further properties *)

(** ** Every reported conflict is fixed *)

Lemma preferred_in_nonempty (k : Key) (db : list Row) :
  preferred_in k db <> [] <->
  exists r, In r db /\ in_group k r = true /\ preferred r = true.
Proof.
  unfold preferred_in. split.
  - destruct (filter (fun r => in_group k r && preferred r) db) as [|r l] eqn:E;
      [congruence|]. intros _.
    assert (H : In r (filter (fun r => in_group k r && preferred r) db))
      by (rewrite E; left; reflexivity).
    apply filter_In in H. destruct H as [H Hb].
    apply andb_true_iff in Hb. exists r. tauto.
  - intros (r & Hr & G & P) E.
    assert (H : In r (filter (fun r => in_group k r && preferred r) db)).
    { apply filter_In. split; [exact Hr|]. rewrite G, P. reflexivity. }
    rewrite E in H. exact H.
Qed.

Lemma warnings_only_warn (fs : filesystem) (assets : list Asset) (l : line) :
  In l (warnings fs assets) -> exists p, l = WarnMissing p.
Proof.
  unfold warnings. rewrite in_flat_map.
  intros ([[[[i p] s] pl] c] & _ & H).
  destruct (asset_exists fs p); simpl in H; [contradiction|].
  destruct H as [<-|[]]. exists p. reflexivity.
Qed.

Section Loop.
Variable hash : string -> Z.
Variable fs : filesystem.

(** The iteration over a group never empties a group of its preferred
    rows, whether ids are unique or not. *)
Lemma fix_table_keeps_nonempty (db : list Row) (g : Key * nat) (k : Key) :
  preferred_in k db <> [] -> preferred_in k (fix_table hash fs db g) <> [].
Proof.
  intros H. unfold fix_table.
  destruct (best hash fs (candidates (fst g) db))
    as [[s [[[[i p] src] pl] c]]|] eqn:B; [|exact H].
  apply preferred_in_nonempty in H. destruct H as (r & Hr & G & P).
  apply preferred_in_nonempty.
  destruct (in_group (fst g) r) eqn:G0.
  - apply best_In in B. destruct B as [Hb _].
    apply candidates_In in Hb. destruct Hb as (w & Hw & Gw & _ & Ew).
    injection Ew as Ei _ _ _ _.
    exists (set_preferred true w). split; [|split].
    + unfold set_by_id, unset_group. rewrite map_map. apply in_map_iff.
      exists w. split; [|exact Hw]. rewrite Gw. simpl.
      rewrite Ei, String.eqb_refl. reflexivity.
    + apply in_group_eq in G, G0, Gw. apply in_group_eq.
      change (row_key (set_preferred true w)) with (row_key w). congruence.
    + reflexivity.
  - exists (if (id r =? i)%string then set_preferred true r else r).
    split; [|split].
    + unfold set_by_id, unset_group. rewrite map_map. apply in_map_iff.
      exists r. split; [|exact Hr]. rewrite G0. reflexivity.
    + destruct (id r =? i)%string; exact G.
    + destruct (id r =? i)%string; [reflexivity | exact P].
Qed.

(** The loop over groups that all have a preferred row: what it returns,
    sends and prints. *)
Lemma fix_loop_trace (gs : list (Key * nat)) :
  forall (n : nat) (t : list Row) (q : list stmt) (o : list line),
    (forall k, In k (map fst gs) -> preferred_in k t <> []) ->
    exists q' o',
      for_each (fix_group hash fs) n gs (mkState t q o)
      = (Ok (n + List.length gs)%nat,
         mkState (fold_left (fix_table hash fs) gs t) (q ++ q') (o ++ o'))
      /\ unset_keys q' = map fst gs
      /\ List.length (set_ids q') = List.length gs
      /\ List.length (filter is_update q') = (2 * List.length gs)%nat
      /\ ~ In CouldNotDetermine o'.
Proof.
  induction gs as [|[k c] gs IH]; intros n t q o Hne.
  - exists [], []. simpl. unfold ret. rewrite !app_nil_r, Nat.add_0_r.
    repeat split; auto.
  - cbn [for_each]. unfold bind. rewrite fix_group_eval.
    assert (Hk : preferred_in k t <> []) by (apply Hne; left; reflexivity).
    destruct (candidates k t) as [|a l] eqn:E.
    { apply candidates_nil in E. contradiction. }
    destruct (best hash fs (a :: l)) as [[s [[[[i p] src] pl] cr]]|] eqn:B;
      [|exfalso; revert B; apply best_nonempty].
    assert (F : fix_table hash fs t (k, c) = set_by_id i (unset_group k t)).
    { unfold fix_table. cbn [fst]. rewrite E, B. reflexivity. }
    specialize (IH (S n) (set_by_id i (unset_group k t))
                  (q ++ [SelectPreferred k; UpdateUnset k; UpdateSet i])
                  (o ++ [FixingGroup k c] ++ warnings fs (a :: l)
                     ++ [BestScore s; SetPreferred p src pl])).
    destruct IH as (q' & o' & Ev & Hu & Hs & Hw & Hc).
    { intros k' Hk'. rewrite <- F. apply fix_table_keeps_nonempty. apply Hne.
      right. exact Hk'. }
    exists ([SelectPreferred k; UpdateUnset k; UpdateSet i] ++ q'),
           ([FixingGroup k c] ++ warnings fs (a :: l)
              ++ [BestScore s; SetPreferred p src pl] ++ o').
    split; [|split; [|split; [|split]]].
    + rewrite Ev. cbn [fold_left List.length]. rewrite F.
      rewrite <- !app_assoc. simpl. rewrite <- !app_assoc.
      rewrite Nat.add_succ_r. reflexivity.
    + simpl. rewrite Hu. reflexivity.
    + simpl. rewrite Hs. reflexivity.
    + simpl. rewrite Hw. lia.
    + intros H. cbn [app In] in H. destruct H as [H|H]; [discriminate H|].
      apply in_app_or in H. destruct H as [H|H].
      * apply warnings_only_warn in H. destruct H as (p' & H).
        discriminate H.
      * simpl in H. destruct H as [H|[H|H]]; try discriminate H.
        contradiction.
Qed.

Lemma conflicts_have_preferred (db : list Row) (k : Key) :
  In k (map fst (conflicts db)) -> preferred_in k db <> [].
Proof.
  intros Hk. apply in_map_iff in Hk.
  destruct Hk as ([k2 n2] & <- & Hg). unfold conflicts in Hg.
  apply sort_by_In, conflict_groups_sound in Hg. cbn [fst].
  destruct Hg as [-> Hn]. intros E0. rewrite E0 in Hn. simpl in Hn. lia.
Qed.

Lemma conflicts_length (db : list Row) :
  List.length (conflicts db) = List.length (conflict_groups db).
Proof. apply Permutation_length, sort_by_perm. Qed.

(** The whole of [fix_preferred_assets]: its result, table, statements and
    lines. *)
Lemma fix_preferred_assets_trace (st : State) :
  exists q o,
    fix_preferred_assets hash fs st
    = (Ok tt,
       mkState
         (fold_left (fix_table hash fs) (conflicts (table st)) (table st))
         (stmts st ++ [SelectConflicts true] ++ q ++ [Commit])
         (out st
            ++ [FixingDatabase db_path; AssetsDirectory assets_dir;
                FoundConflicts (List.length (conflict_groups (table st)))]
            ++ o
            ++ [SummaryHeader;
                ConflictsFound (List.length (conflict_groups (table st)));
                ConflictsFixed (List.length (conflict_groups (table st)))]))
    /\ unset_keys q = map fst (conflicts (table st))
    /\ List.length (set_ids q) = List.length (conflict_groups (table st))
    /\ List.length (filter is_update q)
       = (2 * List.length (conflict_groups (table st)))%nat
    /\ ~ In CouldNotDetermine o.
Proof.
  destruct st as [t q0 o0]. cbn [table stmts out].
  unfold fix_preferred_assets.
  unfold bind at 1. unfold print at 1. cbv beta iota. cbn [table stmts out].
  unfold bind at 1. unfold print at 1. cbv beta iota. cbn [table stmts out].
  unfold bind at 1. unfold select_conflicts, execute. cbv beta iota.
  cbn [table stmts out]. fold (conflicts t).
  unfold bind at 1. unfold print at 1. cbv beta iota. cbn [table stmts out].
  unfold bind at 1.
  match goal with
  | |- context [for_each _ ?n ?gs (mkState ?t1 ?q1 ?o1)] =>
      destruct (fix_loop_trace gs n t1 q1 o1 (conflicts_have_preferred t))
        as (q' & o' & Ev & Hu & Hs & Hw & Hc)
  end.
  rewrite Ev. rewrite conflicts_length in *.
  exists q', o'. split; [|auto].
  unfold bind, commit, execute, print. cbn [table stmts out].
  simpl. rewrite <- !app_assoc. reflexivity.
Qed.
End Loop.

(** X1. Every conflict that the scan reports is fixed: [fix_preferred_assets]
    returns, the counts of conflicts found and fixed that it prints are both
    the number of groups with more than one preferred row, and the line
    "Could not determine best asset" is never printed. *)
Theorem fix_fixes_every_conflict (hash : string -> Z) (fs : filesystem)
    (st : State) :
  exists st' o,
    fix_preferred_assets hash fs st = (Ok tt, st')
    /\ out st'
       = out st
           ++ [FixingDatabase db_path; AssetsDirectory assets_dir;
               FoundConflicts (List.length (conflict_groups (table st)))]
           ++ o
           ++ [SummaryHeader;
               ConflictsFound (List.length (conflict_groups (table st)));
               ConflictsFixed (List.length (conflict_groups (table st)))]
    /\ ~ In CouldNotDetermine o.
Proof.
  destruct (fix_preferred_assets_trace hash fs st)
    as (q & o & E & _ & _ & _ & Hc).
  eexists. exists o. split; [exact E|]. split; [reflexivity | exact Hc].
Qed.

(** X2. The statements of a fix: after the scan, one demotion per reported
    group, in the order of the scan, as many promotions, no other UPDATE,
    and the commit last. *)
Theorem fix_statements (hash : string -> Z) (fs : filesystem) (st : State) :
  exists st' q,
    fix_preferred_assets hash fs st = (Ok tt, st')
    /\ stmts st' = stmts st ++ [SelectConflicts true] ++ q ++ [Commit]
    /\ unset_keys q = map fst (conflicts (table st))
    /\ List.length (set_ids q) = List.length (conflict_groups (table st))
    /\ List.length (filter is_update q)
       = (2 * List.length (conflict_groups (table st)))%nat.
Proof.
  destruct (fix_preferred_assets_trace hash fs st)
    as (q & o & E & Hu & Hs & Hw & _).
  eexists. exists q. split; [exact E|]. split; [reflexivity|]. auto.
Qed.

(** ** The scan reports each group once *)

Lemma distinct_keys_NoDup (rows : list Row) : NoDup (distinct_keys rows).
Proof.
  induction rows as [|r rs IH]; simpl; constructor.
  - intros H. apply filter_In in H. destruct H as [_ H].
    rewrite key_eqb_refl in H. discriminate H.
  - apply NoDup_filter, IH.
Qed.

Lemma tagged_keys_NoDup {B : Type} (h : Key -> B) (f : Key * B -> bool)
    (ks : list Key) :
  NoDup ks -> NoDup (map fst (filter f (map (fun k => (k, h k)) ks))).
Proof.
  induction 1 as [|k ks Hni ND IH]; simpl; [constructor|].
  destruct (f (k, h k)); simpl; [|exact IH].
  constructor; [|exact IH].
  intros H. apply in_map_iff in H. destruct H as ([k' b] & E & H).
  simpl in E. subst k'. apply filter_In in H. destruct H as [H _].
  apply in_map_iff in H. destruct H as (k'' & E & H).
  injection E as -> _. contradiction.
Qed.

Lemma conflict_keys_NoDup (db : list Row) :
  NoDup (map fst (conflict_groups db)).
Proof.
  unfold conflict_groups. apply tagged_keys_NoDup, distinct_keys_NoDup.
Qed.

Lemma conflicts_keys_NoDup (db : list Row) : NoDup (map fst (conflicts db)).
Proof.
  apply Permutation_NoDup with (map fst (conflict_groups db)).
  - apply Permutation_map, Permutation_sym, sort_by_perm.
  - apply conflict_keys_NoDup.
Qed.

(** X3. The scan is exact: a group is reported, once and with the number of
    its preferred rows, exactly when it has more than one preferred row;
    the two forms of the query, with and without ORDER BY, report the same
    groups. *)
Theorem scan_exact (db : list Row) (st : State) :
  (forall k n,
     In (k, n) (conflict_groups db) <->
     n = List.length (preferred_in k db) /\ (1 < n)%nat)
  /\ NoDup (map fst (conflict_groups db))
  /\ exists ordered unordered,
       fst (select_conflicts true st) = Ok ordered
       /\ fst (select_conflicts false st) = Ok unordered
       /\ Permutation ordered unordered
       /\ unordered = conflict_groups (table st).
Proof.
  split; [|split].
  - intros k n. split.
    + apply conflict_groups_sound.
    + intros [-> H]. apply conflict_groups_complete, H.
  - apply conflict_keys_NoDup.
  - eexists. eexists. split; [reflexivity|]. split; [reflexivity|].
    split; [apply sort_by_perm | reflexivity].
Qed.

(** ** Which row stays preferred *)

Lemma set_preferred_same (r : Row) :
  set_preferred (preferred r) r = r.
Proof. destruct r; reflexivity. Qed.

Lemma retag_same_group_eq (k : Key) (w : Row) (db : list Row) :
  NoDup (map id db) -> In w db -> in_group k w = true ->
  preferred w = true ->
  preferred_in k (map (retag k (id w)) db) = [w].
Proof.
  induction db as [|r db IH]; simpl; intros ND Hw Hk Hp; [contradiction|].
  inversion ND as [|x l Hnotin ND']; subst.
  unfold preferred_in in *. simpl. rewrite in_group_retag.
  destruct Hw as [->|Hw].
  - rewrite Hk. unfold retag at 1 2. rewrite Hk. simpl.
    rewrite String.eqb_refl. simpl.
    fold (preferred_in k (map (retag k (id w)) db)).
    rewrite retag_absent by assumption.
    rewrite <- Hp. rewrite set_preferred_same. reflexivity.
  - assert (Hid : id r <> id w).
    { intros E. apply Hnotin. rewrite E. apply in_map, Hw. }
    apply String.eqb_neq in Hid.
    destruct (in_group k r) eqn:G; simpl.
    + unfold retag at 1. rewrite G. simpl. rewrite Hid. simpl.
      apply IH; assumption.
    + apply IH; assumption.
Qed.

(** Rows of another group, preferred or not, are left as they are. *)
Lemma retag_other_rows (k k' : Key) (i : string) (db : list Row) :
  k' <> k ->
  filter (in_group k') (map (retag k i) db) = filter (in_group k') db.
Proof.
  intros Hne.
  induction db as [|r db IH]; simpl; [reflexivity|].
  rewrite in_group_retag, IH.
  destruct (in_group k' r) eqn:G'; [|reflexivity].
  unfold retag. destruct (in_group k r) eqn:G; [|reflexivity].
  apply in_group_eq in G, G'. congruence.
Qed.

(** A row that is preferred after the two UPDATEs was there, preferred. *)
Lemma retag_preferred (k : Key) (w r : Row) (db : list Row) :
  NoDup (map id db) -> In w db -> preferred w = true ->
  In r (map (retag k (id w)) db) -> preferred r = true ->
  In r db.
Proof.
  intros ND Hw Hp Hr Pr. apply in_map_iff in Hr.
  destruct Hr as (r0 & <- & Hr0). unfold retag in *.
  destruct (in_group k r0); [|exact Hr0].
  simpl in Pr. apply String.eqb_eq in Pr.
  assert (r0 = w) by (apply (NoDup_id_eq db); assumption). subst r0.
  rewrite String.eqb_refl, <- Hp, set_preferred_same. exact Hw.
Qed.

Section Winner.
Variable hash : string -> Z.
Variable fs : filesystem.

(** On a table with unique ids, the iteration over a group that has a
    preferred row keeps the best of its preferred rows. *)
Lemma fix_table_winner (db : list Row) (k : Key) (n : nat) :
  NoDup (map id db) -> preferred_in k db <> [] ->
  exists w s,
    best hash fs (candidates k db) = Some (s, asset_of_row w)
    /\ In w db /\ in_group k w = true /\ preferred w = true
    /\ fix_table hash fs db (k, n) = map (retag k (id w)) db.
Proof.
  intros ND Hne. unfold fix_table. cbn [fst].
  destruct (candidates k db) as [|a l] eqn:E.
  - apply candidates_nil in E. contradiction.
  - destruct (best hash fs (a :: l)) as [[s b]|] eqn:B.
    + pose proof (best_In hash fs _ _ _ B) as [Hb _]. rewrite <- E in Hb.
      apply candidates_In in Hb. destruct Hb as (w & Hw & G & P & <-).
      exists w, s. repeat split; try assumption.
      unfold asset_of_row. apply updates_retag; assumption.
    + exfalso. revert B. apply best_nonempty.
Qed.

Lemma best_is_max (assets : list Asset) (s : Z) (w : Asset) :
  best hash fs assets = Some (s, w) ->
  forall a, In a assets -> asset_score hash fs a <= asset_score hash fs w.
Proof.
  intros B a Ha.
  destruct (best_first_max hash fs assets s w B) as (l1 & l2 & E & H1 & H2).
  rewrite E in Ha. apply in_app_or in Ha. destruct Ha as [Ha|[<-|Ha]].
  - specialize (H1 a Ha). lia.
  - lia.
  - apply H2, Ha.
Qed.

Lemma candidates_of_preferred (k : Key) (db : list Row) (r : Row) :
  In r (preferred_in k db) -> In (asset_of_row r) (candidates k db).
Proof.
  intros H. unfold candidates. apply in_map. apply sort_by_In. exact H.
Qed.

Lemma candidates_same (k : Key) (db db' : list Row) :
  preferred_in k db' = preferred_in k db ->
  candidates k db' = candidates k db.
Proof. unfold candidates. intros ->. reflexivity. Qed.

Lemma fix_table_preferred (db : list Row) (g : Key * nat) (r : Row) :
  NoDup (map id db) ->
  In r (fix_table hash fs db g) -> preferred r = true -> In r db.
Proof.
  intros ND Hr Pr. destruct g as [k n].
  destruct (preferred_in k db) as [|r0 l] eqn:E.
  - rewrite fix_table_empty in Hr by exact E. exact Hr.
  - destruct (fix_table_winner db k n ND) as (w & s & _ & Hw & _ & P & F).
    + rewrite E. discriminate.
    + rewrite F in Hr. apply (retag_preferred k w r db); assumption.
Qed.

Lemma fix_all_preferred (gs : list (Key * nat)) :
  forall (db : list Row) (r : Row),
    NoDup (map id db) ->
    In r (fold_left (fix_table hash fs) gs db) -> preferred r = true ->
    In r db.
Proof.
  induction gs as [|g gs IH]; intros db r ND Hr Pr; simpl in Hr.
  - exact Hr.
  - apply (fix_table_preferred db g r ND); [|exact Pr].
    apply IH; [rewrite fix_table_ids; exact ND | exact Hr | exact Pr].
Qed.

Lemma fix_table_other_rows (db : list Row) (g : Key * nat) (k : Key) :
  NoDup (map id db) -> k <> fst g ->
  filter (in_group k) (fix_table hash fs db g) = filter (in_group k) db.
Proof.
  intros ND Hne. destruct g as [k0 n]. cbn [fst] in Hne.
  destruct (preferred_in k0 db) as [|r l] eqn:E.
  - rewrite fix_table_empty by exact E. reflexivity.
  - destruct (fix_table_retag hash fs db k0 n ND) as (w & _ & _ & ->).
    + rewrite E. discriminate.
    + apply retag_other_rows. exact Hne.
Qed.

Lemma fix_all_other_rows (gs : list (Key * nat)) (k : Key) :
  forall db,
    NoDup (map id db) -> ~ In k (map fst gs) ->
    filter (in_group k) (fold_left (fix_table hash fs) gs db)
    = filter (in_group k) db.
Proof.
  induction gs as [|g gs IH]; intros db ND Hni; simpl; [reflexivity|].
  simpl in Hni. rewrite IH.
  - apply fix_table_other_rows; [exact ND|]. intros E. apply Hni. left.
    symmetry. exact E.
  - rewrite fix_table_ids. exact ND.
  - tauto.
Qed.

(** The loop over groups listed once each: the group [k] ends with the
    best of the preferred rows it started with. *)
Lemma fix_all_winner (gs : list (Key * nat)) (db : list Row) (k : Key)
    (n : nat) :
  NoDup (map id db) -> NoDup (map fst gs) -> In (k, n) gs ->
  preferred_in k db <> [] ->
  exists w,
    preferred_in k (fold_left (fix_table hash fs) gs db) = [w]
    /\ In w (preferred_in k db)
    /\ forall r, In r (preferred_in k db) ->
         asset_score hash fs (asset_of_row r)
         <= asset_score hash fs (asset_of_row w).
Proof.
  intros ND NDk Hin Hne.
  apply in_split in Hin. destruct Hin as (pre & post & ->).
  rewrite map_app in NDk. simpl in NDk.
  pose proof (NoDup_remove_2 _ _ _ NDk) as Hni.
  assert (Hpre : ~ In k (map fst pre))
    by (intros H; apply Hni, in_or_app; left; exact H).
  assert (Hpost : ~ In k (map fst post))
    by (intros H; apply Hni, in_or_app; right; exact H).
  rewrite fold_left_app. simpl.
  set (db1 := fold_left (fix_table hash fs) pre db).
  assert (ND1 : NoDup (map id db1))
    by (unfold db1; rewrite fix_all_ids; exact ND).
  assert (P1 : preferred_in k db1 = preferred_in k db)
    by (apply fix_all_other; assumption).
  destruct (fix_table_winner db1 k n ND1) as (w & s & B & Hw & G & P & F).
  { rewrite P1. exact Hne. }
  exists w. split; [|split].
  - rewrite fix_all_other.
    + rewrite F. apply retag_same_group_eq; assumption.
    + rewrite fix_table_ids. exact ND1.
    + exact Hpost.
  - rewrite <- P1. unfold preferred_in. apply filter_In.
    split; [exact Hw|]. rewrite G, P. reflexivity.
  - intros r Hr. rewrite (candidates_same k db db1 P1) in B.
    exact (best_is_max _ _ _ B (asset_of_row r)
             (candidates_of_preferred k db r Hr)).
Qed.
End Winner.

(** X4. The best row is kept: on a table with unique ids, each reported
    group ends with a single preferred row, which is one of the rows that
    were preferred in it before and has the greatest score among them. *)
Theorem fix_keeps_the_best (hash : string -> Z) (fs : filesystem)
    (st : State) :
  NoDup (map id (table st)) ->
  exists st',
    fix_preferred_assets hash fs st = (Ok tt, st')
    /\ forall k n,
         In (k, n) (conflict_groups (table st)) ->
         exists w,
           preferred_in k (table st') = [w]
           /\ In w (preferred_in k (table st))
           /\ forall r, In r (preferred_in k (table st)) ->
                asset_score hash fs (asset_of_row r)
                <= asset_score hash fs (asset_of_row w).
Proof.
  intros ND.
  destruct (fix_preferred_assets_table hash fs st) as (st' & E & T).
  exists st'. split; [exact E|]. intros k n Hin. rewrite T.
  assert (Hin' : In (k, n) (conflicts (table st)))
    by (unfold conflicts; apply sort_by_In; exact Hin).
  apply (fix_all_winner hash fs (conflicts (table st)) (table st) k n);
    [exact ND | apply conflicts_keys_NoDup | exact Hin' |].
  apply conflicts_have_preferred. apply in_map_iff.
  exists (k, n). split; [reflexivity | exact Hin'].
Qed.

Lemma more_ids_unique : NoDup (map id More.db).
Proof.
  simpl. repeat constructor; simpl; intuition discriminate.
Defined.

Lemma fix_keeps_the_best_witness :
  In (More.artist, 3%nat) (conflict_groups (table More.st))
  /\ exists st',
       fix_preferred_assets More.hash0 More.fs More.st = (Ok tt, st')
       /\ forall k n,
            In (k, n) (conflict_groups (table More.st)) ->
            exists w,
              preferred_in k (table st') = [w]
              /\ In w (preferred_in k (table More.st))
              /\ forall r, In r (preferred_in k (table More.st)) ->
                   asset_score More.hash0 More.fs (asset_of_row r)
                   <= asset_score More.hash0 More.fs (asset_of_row w).
Proof.
  split; [right; left; reflexivity|].
  apply fix_keeps_the_best. exact more_ids_unique.
Defined.

(** X5. No row is promoted that was not preferred: on a table with unique
    ids, every row that is preferred after the fix is a row of the table
    before it, where it was preferred already. *)
Theorem fix_promotes_nothing_new (hash : string -> Z) (fs : filesystem)
    (st : State) :
  NoDup (map id (table st)) ->
  exists st',
    fix_preferred_assets hash fs st = (Ok tt, st')
    /\ forall r, In r (table st') -> preferred r = true -> In r (table st).
Proof.
  intros ND.
  destruct (fix_preferred_assets_table hash fs st) as (st' & E & T).
  exists st'. split; [exact E|]. intros r Hr Pr. rewrite T in Hr.
  apply (fix_all_preferred hash fs (conflicts (table st))); assumption.
Qed.

Lemma fix_promotes_nothing_new_witness :
  exists st',
    fix_preferred_assets More.hash0 More.fs More.st = (Ok tt, st')
    /\ forall r, In r (table st') -> preferred r = true -> In r (table More.st).
Proof.
  apply fix_promotes_nothing_new. exact more_ids_unique.
Defined.

(** X6. Groups without a conflict are not touched: on a table with unique
    ids, the rows of a group with at most one preferred row are the same
    after the fix, flag included. *)
Theorem fix_leaves_other_groups (hash : string -> Z) (fs : filesystem)
    (st : State) (k : Key) :
  NoDup (map id (table st)) ->
  (List.length (preferred_in k (table st)) <= 1)%nat ->
  exists st',
    fix_preferred_assets hash fs st = (Ok tt, st')
    /\ filter (in_group k) (table st') = filter (in_group k) (table st).
Proof.
  intros ND Hle.
  destruct (fix_preferred_assets_table hash fs st) as (st' & E & T).
  exists st'. split; [exact E|]. rewrite T.
  apply fix_all_other_rows; [exact ND|].
  intros Hin. apply conflicts_have_preferred in Hin as Hne.
  apply in_map_iff in Hin. destruct Hin as ([k' n] & <- & Hg).
  unfold conflicts in Hg. apply sort_by_In, conflict_groups_sound in Hg.
  cbn [fst] in *. lia.
Qed.

Lemma fix_leaves_other_groups_witness :
  (List.length (preferred_in More.track (table More.st)) <= 1)%nat
  /\ exists st',
       fix_preferred_assets More.hash0 More.fs More.st = (Ok tt, st')
       /\ filter (in_group More.track) (table st')
          = filter (in_group More.track) (table More.st).
Proof.
  split; [simpl; lia|].
  apply fix_leaves_other_groups; [exact more_ids_unique | simpl; lia].
Defined.

(** ** [determine_best_asset] on its own *)

Lemma warnings_missing_paths (fs : filesystem) (assets : list Asset) :
  warnings fs assets
  = map WarnMissing
      (filter (fun p => negb (asset_exists fs p)) (map asset_path assets)).
Proof.
  induction assets as [|[[[[i p] s] pl] c] l IH]; [reflexivity|].
  change (warnings fs ((i, p, s, pl, c) :: l))
    with ((if asset_exists fs p then [] else [WarnMissing p])
            ++ warnings fs l).
  rewrite IH. simpl. destruct (asset_exists fs p); reflexivity.
Qed.

Lemma score_on_disk (hash : string -> Z) (fs : filesystem) (a : Asset) :
  asset_exists fs (asset_path a) = true -> 1080 <= asset_score hash fs a.
Proof.
  destruct a as [[[[i p] s] pl] c]. simpl asset_path. intros E.
  rewrite asset_score_components. unfold existence_points. rewrite E.
  pose proof (source_points_range s). pose proof (plugin_points_range pl).
  pose proof (recency_points_range hash c). lia.
Qed.

Lemma score_missing (hash : string -> Z) (fs : filesystem) (a : Asset) :
  asset_exists fs (asset_path a) = false -> asset_score hash fs a <= 129.
Proof.
  destruct a as [[[[i p] s] pl] c]. simpl asset_path. intros E.
  rewrite asset_score_components. unfold existence_points. rewrite E.
  pose proof (source_points_range s). pose proof (plugin_points_range pl).
  pose proof (recency_points_range hash c). lia.
Qed.

Lemma determine_best_asset_best (hash : string -> Z) (fs : filesystem)
    (assets : list Asset) (st st' : State) (w : Asset) :
  determine_best_asset hash fs assets st = (Ok (Some w), st') ->
  exists s, best hash fs assets = Some (s, w).
Proof.
  destruct st as [t q o]. rewrite determine_best_asset_eval.
  destruct (best hash fs assets) as [[s b]|]; [|discriminate].
  intros H. injection H as -> _. exists s. reflexivity.
Qed.

(** X7. [determine_best_asset] never raises and never touches the database:
    it returns [None] exactly on the empty list, and otherwise one of the
    assets it was given, of the greatest score among them. *)
Theorem determine_best_asset_total (hash : string -> Z) (fs : filesystem)
    (assets : list Asset) (st : State) :
  exists r o,
    determine_best_asset hash fs assets st
    = (Ok r, mkState (table st) (stmts st) (out st ++ o))
    /\ (r = None <-> assets = [])
    /\ forall w, r = Some w ->
         In w assets
         /\ forall a, In a assets ->
              asset_score hash fs a <= asset_score hash fs w.
Proof.
  destruct st as [t q o]. cbn [table stmts out].
  rewrite determine_best_asset_eval.
  destruct (best hash fs assets) as [[s b]|] eqn:B.
  - exists (Some b), (warnings fs assets ++ [BestScore s]).
    split; [reflexivity|]. split.
    + split; [discriminate|]. intros ->. discriminate B.
    + intros w H. injection H as ->. split.
      * apply (best_In hash fs assets s w B).
      * apply (best_is_max hash fs assets s w B).
  - exists None, []. rewrite app_nil_r. split; [reflexivity|]. split.
    + split; [|reflexivity]. intros _.
      destruct assets as [|a l]; [reflexivity|].
      exfalso. revert B. apply best_nonempty.
    + intros w H. discriminate H.
Qed.

(** X8. What [determine_best_asset] prints: one warning for each asset whose
    file is missing, in the order of the list, then the score of the asset
    it returns. *)
Theorem determine_best_asset_prints (hash : string -> Z) (fs : filesystem)
    (assets : list Asset) (st st' : State) (w : Asset) :
  determine_best_asset hash fs assets st = (Ok (Some w), st') ->
  out st'
  = out st
      ++ map WarnMissing
           (filter (fun p => negb (asset_exists fs p)) (map asset_path assets))
      ++ [BestScore (asset_score hash fs w)].
Proof.
  destruct st as [t q o]. rewrite determine_best_asset_eval.
  destruct (best hash fs assets) as [[s b]|] eqn:B; [|discriminate].
  intros H. injection H as -> <-. cbn [out].
  apply best_In in B. destruct B as [_ ->].
  rewrite warnings_missing_paths. reflexivity.
Qed.

Lemma determine_best_asset_prints_witness :
  out (snd (determine_best_asset More.hash0 More.fs
              (candidates More.artist More.db) More.st))
  = [WarnMissing "y/3.jpg"; BestScore 1110].
Proof.
  apply (determine_best_asset_prints More.hash0 More.fs
           (candidates More.artist More.db) More.st
           (snd (determine_best_asset More.hash0 More.fs
                   (candidates More.artist More.db) More.st))
           (asset_of_row More.r4)).
  vm_compute. reflexivity.
Defined.

(** X9. A file on disk wins: when some asset of the list has its file on
    disk, so has the asset that [determine_best_asset] returns. *)
Theorem determine_best_asset_on_disk (hash : string -> Z) (fs : filesystem)
    (assets : list Asset) (st st' : State) (w a : Asset) :
  determine_best_asset hash fs assets st = (Ok (Some w), st') ->
  In a assets ->
  asset_exists fs (asset_path a) = true ->
  asset_exists fs (asset_path w) = true.
Proof.
  intros H Ha Ea.
  destruct (determine_best_asset_best hash fs assets st st' w H) as (s & B).
  pose proof (best_is_max hash fs assets s w B a Ha) as Hmax.
  pose proof (score_on_disk hash fs a Ea).
  destruct (asset_exists fs (asset_path w)) eqn:Ew; [reflexivity|].
  pose proof (score_missing hash fs w Ew). lia.
Qed.

(** The embedded row [r5], whose file is missing, loses to [r4]. *)
Lemma determine_best_asset_on_disk_witness :
  asset_exists More.fs (asset_path (asset_of_row More.r5)) = false
  /\ asset_exists More.fs (asset_path (asset_of_row More.r4)) = true.
Proof.
  split; [reflexivity|].
  apply (determine_best_asset_on_disk More.hash0 More.fs
           (candidates More.artist More.db) More.st
           (snd (determine_best_asset More.hash0 More.fs
                   (candidates More.artist More.db) More.st))
           (asset_of_row More.r4) (asset_of_row More.r3)).
  - vm_compute. reflexivity.
  - vm_compute. tauto.
  - reflexivity.
Defined.

(** X10. The source decides among equals: when every asset of the list has
    its file on disk and the plugin points of the asset returned, that
    asset has the greatest source points of the list. *)
Theorem determine_best_asset_source (hash : string -> Z) (fs : filesystem)
    (assets : list Asset) (st st' : State) (w : Asset) :
  determine_best_asset hash fs assets st = (Ok (Some w), st') ->
  (forall a, In a assets -> asset_exists fs (asset_path a) = true) ->
  (forall a, In a assets ->
     plugin_points (asset_plugin_id a) = plugin_points (asset_plugin_id w)) ->
  forall a, In a assets ->
    source_points (asset_source a) <= source_points (asset_source w).
Proof.
  intros H Hex Hpl a Ha.
  destruct (determine_best_asset_best hash fs assets st st' w H) as (s & B).
  pose proof (best_is_max hash fs assets s w B a Ha) as Hmax.
  pose proof (best_In hash fs assets s w B) as [Hw _].
  destruct (Z.le_gt_cases (source_points (asset_source a))
              (source_points (asset_source w))) as [L|G]; [exact L|].
  exfalso.
  specialize (Hpl a Ha). pose proof (Hex a Ha) as Ea.
  pose proof (Hex w Hw) as Ew.
  destruct a as [[[[i1 p1] s1] pl1] c1], w as [[[[i2 p2] s2] pl2] c2].
  simpl in Hpl, Ea, Ew, G.
  pose proof (source_decides hash fs i1 p1 s1 pl1 c1 i2 p2 s2 pl2 c2
                Ea Ew Hpl G).
  lia.
Qed.

Lemma determine_best_asset_source_witness :
  let assets :=
    [("1", "x/1.jpg", "plugin", None, Some "2024-05-01 10:00:00");
     ("2", "x/2.jpg", "core", None, Some "2024-04-01 10:00:00");
     ("3", "z/1.jpg", "embedded", None, Some "2024-01-01 00:00:00")] in
  fst (determine_best_asset More.hash0 More.fs assets More.st)
    = Ok (Some ("3", "z/1.jpg", "embedded", None, Some "2024-01-01 00:00:00"))
  /\ forall a, In a assets -> source_points (asset_source a) <= 100.
Proof.
  intros assets. split; [vm_compute; reflexivity|].
  apply (determine_best_asset_source More.hash0 More.fs assets More.st
           (snd (determine_best_asset More.hash0 More.fs assets More.st))
           ("3", "z/1.jpg", "embedded", None, Some "2024-01-01 00:00:00")).
  - vm_compute. reflexivity.
  - intros a [<-|[<-|[<-|[]]]]; reflexivity.
  - intros a [<-|[<-|[<-|[]]]]; reflexivity.
Defined.

(** ** The verifier and the whole run *)

Lemma count_split (t : list Row) :
  List.length t
  = (count_preferred t
     + List.length (filter (fun r => negb (preferred r)) t))%nat.
Proof.
  unfold count_preferred.
  induction t as [|r t IH]; simpl; [reflexivity|].
  destruct (preferred r); simpl; lia.
Qed.

Lemma verify_fix_report (st : State) :
  verify_fix st
  = (Ok tt,
     mkState (table st)
       (stmts st
          ++ [SelectConflicts false; SelectCountPreferred; SelectCountAll])
       (out st ++ [Verifying] ++ verdict (conflict_groups (table st))
          ++ [StatisticsHeader; TotalAssets (List.length (table st));
              PreferredAssets (count_preferred (table st));
              NonPreferredAssets
                (Z.of_nat (List.length (table st))
                 - Z.of_nat (count_preferred (table st)))])).
Proof.
  destruct st as [t q o]. cbn [table stmts out].
  unfold verify_fix.
  unfold bind at 1. unfold print at 1. cbv beta iota. cbn [table stmts out].
  unfold bind at 1. unfold select_conflicts, execute at 1. cbv beta iota.
  cbn [table stmts out].
  unfold bind at 1.
  destruct (conflict_groups t) as [|g l].
  - unfold bind, print, execute, verdict. simpl. rewrite <- !app_assoc.
    reflexivity.
  - unfold bind at 1. unfold print at 1. cbv beta iota.
    cbn [table stmts out]. rewrite print_loop.
    unfold bind, print, execute, verdict. simpl. rewrite <- !app_assoc.
    reflexivity.
Qed.

(** X11. The verdict of the verifier: [verify_fix] prints "All conflicts
    resolved" exactly when no group has more than one preferred row;
    otherwise it prints the number of groups that have and one line for
    each of them, with its count. *)
Theorem verify_fix_verdict (st : State) :
  exists v s,
    snd (verify_fix st)
    = mkState (table st)
        (stmts st
           ++ [SelectConflicts false; SelectCountPreferred; SelectCountAll])
        (out st ++ [Verifying] ++ v ++ s)
    /\ List.length s = 4%nat
    /\ (v = [AllResolved] <->
        forall k, (List.length (preferred_in k (table st)) <= 1)%nat)
    /\ (v <> [AllResolved] ->
        v = StillConflicts (List.length (conflict_groups (table st)))
              :: map RemainingConflict (conflict_groups (table st))
        /\ forall k n,
             In (RemainingConflict (k, n)) v <->
             n = List.length (preferred_in k (table st)) /\ (1 < n)%nat).
Proof.
  rewrite verify_fix_report. cbn [snd].
  exists (verdict (conflict_groups (table st))). eexists.
  split; [reflexivity|]. split; [reflexivity|]. split; [split|].
  - intros H k.
    destruct (Nat.le_gt_cases (List.length (preferred_in k (table st))) 1)
      as [L|G]; [exact L|].
    apply conflict_groups_complete in G.
    destruct (conflict_groups (table st)); [contradiction|].
    discriminate H.
  - intros H. rewrite (conflict_groups_nil _ H). reflexivity.
  - intros H.
    destruct (conflict_groups (table st)) as [|g l] eqn:E;
      [contradiction H; reflexivity|].
    split; [reflexivity|]. intros k n. cbn [verdict]. rewrite <- E. split.
    + intros [Hd|Hin]; [discriminate Hd|].
      apply in_map_iff in Hin. destruct Hin as (g' & Eg & Hin).
      injection Eg as ->. apply conflict_groups_sound, Hin.
    + intros [-> Hn]. right. apply in_map.
      apply conflict_groups_complete, Hn.
Qed.

(** X12. The statistics of the verifier: the three numbers that
    [verify_fix] prints last are the number of rows, the number of rows
    with [preferred] set and the number of rows with [preferred] unset, and
    the first is the sum of the other two. *)
Theorem verify_fix_statistics (st : State) :
  exists o,
    out (snd (verify_fix st))
    = o ++ [StatisticsHeader;
            TotalAssets (List.length (table st));
            PreferredAssets (List.length (filter preferred (table st)));
            NonPreferredAssets
              (Z.of_nat
                 (List.length
                    (filter (fun r => negb (preferred r)) (table st))))]
    /\ List.length (table st)
       = (List.length (filter preferred (table st))
          + List.length (filter (fun r => negb (preferred r)) (table st)))%nat.
Proof.
  rewrite verify_fix_report. cbn [snd out].
  pose proof (count_split (table st)) as H. unfold count_preferred in *.
  replace (Z.of_nat (List.length (table st))
           - Z.of_nat (List.length (filter preferred (table st))))
    with (Z.of_nat
            (List.length (filter (fun r => negb (preferred r)) (table st))))
    by lia.
  exists (out st ++ [Verifying] ++ verdict (conflict_groups (table st))).
  split; [|exact H]. rewrite <- !app_assoc. reflexivity.
Qed.

(** X13. The report of a full run: with the database and the assets
    directory in place and unique ids, [main] returns after the verifier
    has printed "All conflicts resolved" and statistics with as many rows
    as the table had before the run. *)
Theorem main_reports_resolved (hash : string -> Z) (fs : filesystem)
    (st : State) :
  db_path_exists fs = true ->
  assets_dir_exists fs = true ->
  NoDup (map id (table st)) ->
  exists st1 st2 p,
    fix_preferred_assets hash fs st = (Ok tt, st1)
    /\ main hash fs st = (Ok tt, st2)
    /\ table st2 = table st1
    /\ out st2
       = out st1
           ++ [Verifying; AllResolved; StatisticsHeader;
               TotalAssets (List.length (table st)); PreferredAssets p;
               NonPreferredAssets (Z.of_nat (List.length (table st))
                                   - Z.of_nat p)].
Proof.
  intros Hdb Has ND.
  destruct (fix_preferred_assets_table hash fs st) as (st1 & E & T).
  assert (H : conflict_groups (table st1) = []).
  { apply conflict_groups_nil. intros k. rewrite T.
    apply fix_all_resolved. exact ND. }
  assert (L : List.length (table st1) = List.length (table st)).
  { rewrite <- (length_map id (table st1)), <- (length_map id (table st)).
    rewrite T, fix_all_ids. reflexivity. }
  exists st1. eexists. exists (count_preferred (table st1)).
  split; [exact E|].
  unfold main. rewrite Hdb, Has. simpl. unfold bind. rewrite E.
  rewrite verify_fix_report, H, L.
  split; [reflexivity|]. split; reflexivity.
Qed.

Lemma main_reports_resolved_witness :
  exists st1 st2 p,
    fix_preferred_assets More.hash0 More.fs More.st = (Ok tt, st1)
    /\ main More.hash0 More.fs More.st = (Ok tt, st2)
    /\ table st2 = table st1
    /\ out st2
       = out st1
           ++ [Verifying; AllResolved; StatisticsHeader;
               TotalAssets (List.length (table More.st)); PreferredAssets p;
               NonPreferredAssets (Z.of_nat (List.length (table More.st))
                                   - Z.of_nat p)].
Proof.
  apply main_reports_resolved;
    [reflexivity | reflexivity | exact more_ids_unique].
Defined.

Lemma conflict_groups_nil_inv (db : list Row) :
  conflict_groups db = [] ->
  forall k, (List.length (preferred_in k db) <= 1)%nat.
Proof.
  intros H k.
  destruct (Nat.le_gt_cases (List.length (preferred_in k db)) 1)
    as [L|G]; [exact L|].
  apply conflict_groups_complete in G. rewrite H in G. contradiction.
Defined.

(** X14. A table without conflict: when no group has more than one
    preferred row, the fix sends the scan and the commit and nothing else,
    leaves the table as it is and reports 0 conflicts found and fixed. *)
Theorem fix_without_conflict (hash : string -> Z) (fs : filesystem)
    (st : State) :
  (forall k, (List.length (preferred_in k (table st)) <= 1)%nat) ->
  fix_preferred_assets hash fs st
  = (Ok tt,
     mkState (table st) (stmts st ++ [SelectConflicts true; Commit])
       (out st ++ [FixingDatabase db_path; AssetsDirectory assets_dir;
                   FoundConflicts 0; SummaryHeader; ConflictsFound 0;
                   ConflictsFixed 0])).
Proof.
  intros H. apply fix_preferred_assets_no_conflict.
  apply conflict_groups_nil, H.
Qed.

Lemma fix_without_conflict_witness :
  fix_preferred_assets More.hash0 More.fs
    (mkState [More.r1; More.r3; More.r6; More.r7] [] [])
  = (Ok tt,
     mkState [More.r1; More.r3; More.r6; More.r7] [SelectConflicts true; Commit]
       [FixingDatabase db_path; AssetsDirectory assets_dir;
        FoundConflicts 0; SummaryHeader; ConflictsFound 0;
        ConflictsFixed 0]).
Proof.
  apply (fix_without_conflict More.hash0 More.fs
           (mkState [More.r1; More.r3; More.r6; More.r7] [] [])).
  apply conflict_groups_nil_inv. reflexivity.
Defined.

(** ** Counting the preferred rows *)

Lemma count_by_group (k : Key) (t : list Row) :
  count_preferred t
  = (List.length (preferred_in k t)
     + List.length (filter (fun r => negb (in_group k r) && preferred r) t))%nat.
Proof.
  unfold count_preferred, preferred_in.
  induction t as [|r t IH]; simpl; [reflexivity|].
  destruct (in_group k r), (preferred r); simpl; lia.
Qed.

Lemma retag_outside (k : Key) (i : string) (db : list Row) :
  filter (fun r => negb (in_group k r) && preferred r) (map (retag k i) db)
  = filter (fun r => negb (in_group k r) && preferred r) db.
Proof.
  induction db as [|r db IH]; simpl; [reflexivity|].
  rewrite in_group_retag, IH.
  destruct (in_group k r) eqn:G; simpl; [reflexivity|].
  unfold retag. rewrite G. reflexivity.
Qed.

Lemma surplus_perm (l l' : list (Key * nat)) :
  Permutation l l' -> surplus l = surplus l'.
Proof.
  unfold surplus. induction 1; simpl; lia.
Qed.

Section Count.
Variable hash : string -> Z.
Variable fs : filesystem.

Lemma fix_table_count (db : list Row) (k : Key) (n : nat) :
  NoDup (map id db) -> preferred_in k db <> [] ->
  (count_preferred (fix_table hash fs db (k, n))
   + List.length (preferred_in k db)
   = count_preferred db + 1)%nat.
Proof.
  intros ND Hne.
  destruct (fix_table_retag hash fs db k n ND Hne) as (w & Hw & G & ->).
  rewrite (count_by_group k (map (retag k (id w)) db)).
  rewrite (count_by_group k db).
  rewrite retag_outside, retag_same_group by assumption. lia.
Qed.

Lemma fix_all_count (gs : list (Key * nat)) :
  forall db,
    NoDup (map id db) -> NoDup (map fst gs) ->
    (forall k n, In (k, n) gs ->
       n = List.length (preferred_in k db) /\ (1 <= n)%nat) ->
    (count_preferred (fold_left (fix_table hash fs) gs db) + surplus gs
     = count_preferred db)%nat.
Proof.
  induction gs as [|[k n] gs IH]; intros db ND NDk Hg.
  - simpl. unfold surplus. simpl. lia.
  - simpl in NDk. inversion NDk as [|x l Hni NDk']; subst.
    destruct (Hg k n (or_introl eq_refl)) as [Hn H1].
    assert (Hne : preferred_in k db <> []).
    { intros E. rewrite E in Hn. simpl in Hn. lia. }
    pose proof (fix_table_count db k n ND Hne) as Hc.
    assert (IH' : (count_preferred
                     (fold_left (fix_table hash fs) gs
                        (fix_table hash fs db (k, n)))
                   + surplus gs
                   = count_preferred (fix_table hash fs db (k, n)))%nat).
    { apply IH.
      - rewrite fix_table_ids. exact ND.
      - exact NDk'.
      - intros k' n' Hin.
        rewrite fix_table_other.
        + apply Hg. right. exact Hin.
        + exact ND.
        + cbn [fst]. intros ->. apply Hni. apply in_map_iff.
          exists (k, n'). split; [reflexivity | exact Hin]. }
    cbn [fold_left].
    change (surplus ((k, n) :: gs)) with ((n - 1) + surplus gs)%nat. lia.
Qed.
End Count.

(** X15. The count of preferred rows: on a table with unique ids, the fix
    lowers the number of preferred rows by one less than its count for
    each reported group, and by nothing else. *)
Theorem fix_preferred_count (hash : string -> Z) (fs : filesystem)
    (st : State) :
  NoDup (map id (table st)) ->
  exists st',
    fix_preferred_assets hash fs st = (Ok tt, st')
    /\ (count_preferred (table st') + surplus (conflict_groups (table st))
        = count_preferred (table st))%nat.
Proof.
  intros ND.
  destruct (fix_preferred_assets_table hash fs st) as (st' & E & T).
  exists st'. split; [exact E|]. rewrite T.
  rewrite (surplus_perm (conflict_groups (table st)) (conflicts (table st)))
    by (apply Permutation_sym, sort_by_perm).
  apply fix_all_count; [exact ND | apply conflicts_keys_NoDup |].
  intros k n Hin. unfold conflicts in Hin.
  apply sort_by_In, conflict_groups_sound in Hin. lia.
Qed.

Lemma fix_preferred_count_witness :
  surplus (conflict_groups (table More.st)) = 3%nat
  /\ exists st',
       fix_preferred_assets More.hash0 More.fs More.st = (Ok tt, st')
       /\ (count_preferred (table st')
           + surplus (conflict_groups (table More.st))
           = count_preferred (table More.st))%nat.
Proof.
  split; [reflexivity|].
  apply fix_preferred_count. exact more_ids_unique.
Defined.

(** ** How far the hash reaches *)

Lemma asset_eq_dec (a b : Asset) : {a = b} + {a <> b}.
Proof. repeat decide equality. Defined.

Lemma score_base (hash : string -> Z) (fs : filesystem) (a : Asset) :
  base_score fs a <= asset_score hash fs a <= base_score fs a + 9.
Proof.
  unfold base_score. destruct a as [[[[i p] s] pl] c].
  rewrite !asset_score_components.
  pose proof (recency_points_range hash c).
  assert (recency_points (fun _ => 0) c = 0)
    by (destruct c as [[|ch c']|]; reflexivity).
  lia.
Qed.

(** X16. The hash decides only near ties: an asset of the list whose score
    without the recency component is at least 10 above that of every other
    asset is the one returned, in every interpreter process. *)
Theorem winner_independent_of_hash (hash : string -> Z) (fs : filesystem)
    (assets : list Asset) (st st' : State) (w a0 : Asset) :
  determine_best_asset hash fs assets st = (Ok (Some w), st') ->
  In a0 assets ->
  (forall a, In a assets -> a <> a0 ->
     base_score fs a + 10 <= base_score fs a0) ->
  w = a0.
Proof.
  intros H Ha0 Hgap.
  destruct (determine_best_asset_best hash fs assets st st' w H) as (s & B).
  pose proof (best_is_max hash fs assets s w B a0 Ha0) as Hmax.
  pose proof (best_In hash fs assets s w B) as [Hw _].
  destruct (asset_eq_dec w a0) as [E|N]; [exact E|].
  specialize (Hgap w Hw N).
  pose proof (score_base hash fs w). pose proof (score_base hash fs a0).
  lia.
Qed.

(** Under both hash seeds the musicbrainz row [r4] is returned. *)
Lemma winner_independent_of_hash_witness :
  fst (determine_best_asset Sample.hash1 More.fs
         (candidates More.artist More.db) More.st)
    = Ok (Some (asset_of_row More.r4))
  /\ asset_of_row More.r4 = asset_of_row More.r4.
Proof.
  split; [vm_compute; reflexivity|].
  apply (winner_independent_of_hash Sample.hash2 More.fs
           (candidates More.artist More.db) More.st
           (snd (determine_best_asset Sample.hash2 More.fs
                   (candidates More.artist More.db) More.st))
           (asset_of_row More.r4) (asset_of_row More.r4)).
  - vm_compute. reflexivity.
  - right. left. reflexivity.
  - intros a [<-|[<-|[<-|[]]]] N.
    + vm_compute. discriminate.
    + contradiction N. reflexivity.
    + vm_compute. discriminate.
Defined.
